(** * Verification of the scoring and ranking core of cryptoMonitor (src/monitor.js)

    Shallow embedding of [BitcoinDominanceAnalyzer] and
    [AdvancedCryptoAnalyzer] from src/monitor.js.

    JavaScript numbers are modelled as the real numbers extended with the
    IEEE-754 special values [+Infinity], [-Infinity] and [NaN], with exact
    (unrounded) arithmetic on the finite part; the special values follow the
    IEEE-754 / ECMAScript rules for [+ - * /], [Math.log10], [Math.sqrt],
    [Math.min] and [Math.max].  Signed zero is not modelled.  Strings are
    Stdlib strings (ASCII), [toUpperCase] is ASCII upper-casing.

    The network collaborators (CoinMarketCap quotes, listings and global
    metrics) are an oracle [World]; the analyzer's own state (the number of
    dominance fetches performed and the log file) is threaded through a
    small state-and-error monad. *)

From Stdlib Require Import Reals Lra String Ascii List Bool Permutation Lia.
From Stdlib Require Import Floats.
Import ListNotations.

Open Scope R_scope.

(** ** JavaScript numbers *)

Module JSNum.

Inductive num : Type :=
| Fin (x : R)
| PInf
| NInf
| NaN.

Definition Rltb (x y : R) : bool := if Rlt_dec x y then true else false.
Definition Rleb (x y : R) : bool := if Rle_dec x y then true else false.
Definition Reqb (x y : R) : bool := if Req_dec_T x y then true else false.

(** The infinity of the sign of a non-zero finite value. *)
Definition inf_of_sign (x : R) : num := if Rltb 0 x then PInf else NInf.

Definition neg (a : num) : num :=
  match a with
  | Fin x => Fin (- x)
  | PInf => NInf
  | NInf => PInf
  | NaN => NaN
  end.

Definition add (a b : num) : num :=
  match a, b with
  | NaN, _ | _, NaN => NaN
  | Fin x, Fin y => Fin (x + y)
  | PInf, NInf | NInf, PInf => NaN
  | PInf, _ | _, PInf => PInf
  | NInf, _ | _, NInf => NInf
  end.

Definition sub (a b : num) : num := add a (neg b).

(** [x * Infinity]: NaN for a zero factor, else the infinity of the
    product's sign. *)
Definition mul_inf (x : R) (pos : bool) : num :=
  if Reqb x 0 then NaN
  else if Bool.eqb (Rltb 0 x) pos then PInf else NInf.

Definition mul (a b : num) : num :=
  match a, b with
  | NaN, _ | _, NaN => NaN
  | Fin x, Fin y => Fin (x * y)
  | Fin x, PInf | PInf, Fin x => mul_inf x true
  | Fin x, NInf | NInf, Fin x => mul_inf x false
  | PInf, PInf | NInf, NInf => PInf
  | PInf, NInf | NInf, PInf => NInf
  end.

Definition div (a b : num) : num :=
  match a, b with
  | NaN, _ | _, NaN => NaN
  | Fin x, Fin y =>
      if Reqb y 0 then (if Reqb x 0 then NaN else inf_of_sign x)
      else Fin (x / y)
  | Fin _, PInf | Fin _, NInf => Fin 0
  | PInf, Fin y => if Rleb 0 y then PInf else NInf
  | NInf, Fin y => if Rleb 0 y then NInf else PInf
  | _, _ => NaN
  end.

(** [Math.log10] *)
Definition log10 (a : num) : num :=
  match a with
  | Fin x =>
      if Rltb 0 x then Fin (ln x / ln 10)
      else if Reqb x 0 then NInf else NaN
  | PInf => PInf
  | NInf | NaN => NaN
  end.

(** [Math.sqrt] *)
Definition sqrt (a : num) : num :=
  match a with
  | Fin x => if Rleb 0 x then Fin (R_sqrt.sqrt x) else NaN
  | PInf => PInf
  | NInf | NaN => NaN
  end.

(** [a < b] on numbers; false as soon as one side is NaN. *)
Definition ltb (a b : num) : bool :=
  match a, b with
  | NaN, _ | _, NaN => false
  | Fin x, Fin y => Rltb x y
  | NInf, NInf | PInf, _ | _, NInf => false
  | NInf, _ | _, PInf => true
  end.

Definition gtb (a b : num) : bool := ltb b a.

(** [a === b] on numbers. *)
Definition seqb (a b : num) : bool :=
  match a, b with
  | Fin x, Fin y => Reqb x y
  | PInf, PInf | NInf, NInf => true
  | _, _ => false
  end.

Definition geb (a b : num) : bool := orb (gtb a b) (seqb a b).

(** [Math.min(a, b)] and [Math.max(a, b)]. *)
Definition min (a b : num) : num :=
  match a, b with
  | NaN, _ | _, NaN => NaN
  | _, _ => if ltb b a then b else a
  end.

Definition max (a b : num) : num :=
  match a, b with
  | NaN, _ | _, NaN => NaN
  | _, _ => if ltb a b then b else a
  end.

End JSNum.

Import JSNum.

Declare Scope js_scope.
Delimit Scope js_scope with js.
Infix "+" := JSNum.add : js_scope.
Infix "-" := JSNum.sub : js_scope.
Infix "*" := JSNum.mul : js_scope.
Infix "/" := JSNum.div : js_scope.
Coercion Fin : R >-> num.

(** ** [BitcoinDominanceAnalyzer] *)

Module Dominance.

Definition HIGH : R := 60.
Definition MEDIUM : R := 45.
Definition LOW : R := 35.

Inductive phase_name := btc_dominance | altcoin_season | transition | accumulation.

Record Phase := { name : phase_name; strength : string; description : string }.

Record Impact := { btcImpact : R; altcoinImpact : R }.

Record Recommendation := { rtype : string; action : string; confidence : string }.

Record DominanceState := {
  currentDominance : R;
  phase : Phase;
  impact : Impact;
  recommendations : list Recommendation
}.

Definition determineCyclePhase (dominance : R) : Phase :=
  if Rleb HIGH dominance then
    {| name := btc_dominance; strength := "high";
       description := "Dominio fuerte de Bitcoin" |}
  else if Rleb dominance LOW then
    {| name := altcoin_season; strength := "high";
       description := "Temporada favorable para altcoins" |}
  else if Rltb dominance MEDIUM then
    {| name := transition; strength := "medium";
       description := "Fase de transicion" |}
  else
    {| name := accumulation; strength := "medium";
       description := "Fase de acumulacion" |}.

Definition calculateBTCImpact (dominance : R) : R :=
  if Rleb HIGH dominance then 1.2
  else if Rleb dominance LOW then 0.8
  else 1.0.

Definition calculateAltcoinImpact (dominance : R) : R :=
  2 - calculateBTCImpact dominance.

Definition assessMarketImpact (dominance : R) : Impact :=
  {| btcImpact := calculateBTCImpact dominance;
     altcoinImpact := calculateAltcoinImpact dominance |}.

Definition generateRecommendations (dominance : R) : list Recommendation :=
  match name (determineCyclePhase dominance) with
  | btc_dominance =>
      [{| rtype := "BTC_FOCUS"; action := "Priorizar Bitcoin"; confidence := "Alta" |}]
  | altcoin_season =>
      [{| rtype := "ALT_FOCUS"; action := "Considerar altcoins de alta capitalizacion";
          confidence := "Alta" |}]
  | transition =>
      [{| rtype := "MIXED"; action := "Diversificar entre BTC y altcoins selectas";
          confidence := "Media" |}]
  | accumulation =>
      [{| rtype := "CONSERVATIVE"; action := "Mantener posiciones conservadoras";
          confidence := "Media" |}]
  end.

(** The record built by [analyzeMarketCycle] once the dominance is read. *)
Definition marketCycle (currentDominance : R) : DominanceState :=
  {| currentDominance := currentDominance;
     phase := determineCyclePhase currentDominance;
     impact := assessMarketImpact currentDominance;
     recommendations := generateRecommendations currentDominance |}.

End Dominance.

(** ** [AdvancedCryptoAnalyzer]: metrics, scores and the dominance adjustment *)

Module Analyzer.

Import Dominance.

(** [this.constants] *)
Definition MICRO_CAP : R := 50000000.
Definition SMALL_CAP : R := 250000000.
Definition MID_CAP : R := 1000000000.
Definition LARGE_CAP : R := 10000000000.
Definition VOL_MEDIUM : R := 15.
Definition VOL_HIGH : R := 25.
Definition HEALTHY : R := 0.15.
Definition STRONG : R := 0.30.
Definition EXCEPTIONAL : R := 0.50.

(** One entry of a CoinMarketCap quote or listing ([coinData]); a
    [percent_change_*] field the API reports as [null] is [None]. *)
Record CoinData := {
  cd_name : string;
  cd_symbol : string;
  cd_price : R;
  market_cap : R;
  volume_24h : R;
  percent_change_1h : option R;
  percent_change_24h : option R;
  percent_change_7d : option R;
  percent_change_30d : option R
}.

Record Basic := {
  bname : string;
  symbol : string;
  price : R;
  marketCap : R;
  volume24h : R
}.

Record Maturity := { mm_score : R; mm_category : string }.

(** [{ score, category }] of the volume health and of the volatility. *)
Record Scored := { score : num; category : string }.

Record Metrics := {
  marketMaturity : Maturity;
  volumeHealth : Scored;
  momentum : num;
  volatility : Scored
}.

Record Performance := {
  change1h : option R;
  change24h : option R;
  change7d : option R;
  change30d : option R
}.

Record RiskLevel := { level : string; risk_score : num }.

(** The part of [analysis] the three scorers read. *)
Record AnalysisInput := { basic : Basic; metrics : Metrics }.

Record Analysis := {
  input : AnalysisInput;
  performance : Performance;
  isOnCoinbase : bool;
  investmentScore : num;
  riskLevel : RiskLevel;
  potentialReturn : num
}.

(** [{ ...analysis, btcDominance, adjustedScore }] *)
Record AdjustedAnalysis := {
  analysis : Analysis;
  btcDominance : DominanceState;
  adjustedScore : num
}.

Definition calculateMarketMaturity (marketCap : R) : Maturity :=
  if Rleb LARGE_CAP marketCap then {| mm_score := 1.0; mm_category := "Establecido" |}
  else if Rleb MID_CAP marketCap then {| mm_score := 1.5; mm_category := "Maduro" |}
  else if Rleb SMALL_CAP marketCap then {| mm_score := 2.0; mm_category := "En Desarrollo" |}
  else if Rleb MICRO_CAP marketCap then {| mm_score := 2.5; mm_category := "Emergente" |}
  else {| mm_score := 3.0; mm_category := "Especulativo" |}.

Definition calculateVolumeHealth (volumeRatio : num) : Scored :=
  let normalizedRatio := JSNum.min volumeRatio EXCEPTIONAL in
  let volumeScore :=
    (log10 (normalizedRatio * 100 + 1) / log10 (Fin EXCEPTIONAL * 100 + 1))%js in
  {| score := volumeScore;
     category :=
       if geb volumeRatio EXCEPTIONAL then "Excepcional"
       else if geb volumeRatio STRONG then "Fuerte"
       else if geb volumeRatio HEALTHY then "Saludable" else "Bajo" |}.

(** [arr.reduce((a, b) => a + b)] on a non-empty array (no initial value). *)
Definition reduce_sum (xs : list num) : num :=
  match xs with
  | [] => NaN (* never used: both call sites check [length > 0] *)
  | x :: xs' => fold_left JSNum.add xs' x
  end.

(** The sums of [reduce] are exact here: in binary64 they overflow to
    Infinity for changes near 1e308 (and the momentum is then NaN), which this
    definition does not produce; statements about the momentum of a quote
    assume [Fixtures.no_overflow_changes]. *)
Definition calculateMomentumIndicator (priceChanges : list R) : num :=
  let gains := filter (fun x => Rltb 0 x) priceChanges in
  let losses := map Rabs (filter (fun x => Rltb x 0) priceChanges) in
  let avgGain := if (0 <? length gains)%nat
                 then (reduce_sum (map Fin gains) / Fin (INR (length gains)))%js
                 else Fin 0 in
  let avgLoss := if (0 <? length losses)%nat
                 then (reduce_sum (map Fin losses) / Fin (INR (length losses)))%js
                 else Fin 0 in
  if seqb avgLoss 0 then Fin 1
  else
    let RS := (avgGain / avgLoss)%js in
    ((100 - (100 / (1 + RS))) / 100)%js.

Definition calculateVolatilityScore (priceChanges : list R) : Scored :=
  let len := Fin (INR (length priceChanges)) in
  let mean := (fold_left (fun a b => a + Fin b) priceChanges (Fin 0) / len)%js in
  let variance :=
    (fold_left (fun a b => a + (Fin b - mean) * (Fin b - mean)) priceChanges (Fin 0)
       / len)%js in
  let stdDev := JSNum.sqrt variance in
  {| score := JSNum.min (stdDev / VOL_HIGH)%js 1;
     category := if gtb stdDev VOL_HIGH then "Alta"
                 else if gtb stdDev VOL_MEDIUM then "Media" else "Baja" |}.

Definition calculateInvestmentScore (a : AnalysisInput) : num :=
  let m := metrics a in
  let b := basic a in
  let marketMaturityScore := ((4 - Fin (mm_score (marketMaturity m))) * 2)%js in
  let volumeScore := (score (volumeHealth m) * 10)%js in
  let momentumScore := (momentum m * 10)%js in
  let volatilityAdjustment := JSNum.max 0 (1 - score (volatility m))%js in
  let marketCapOptimality :=
    JSNum.min 10 (log10 (Fin 1e11 / Fin (marketCap b)) * 2)%js in
  let volumeRatio := JSNum.min 10 ((Fin (volume24h b) / Fin (marketCap b)) * 5)%js in
  JSNum.max 1 (JSNum.min 10
    (marketMaturityScore * 0.2 +
     volumeScore * 0.2 +
     momentumScore * 0.25 +
     volatilityAdjustment * 0.15 +
     marketCapOptimality * 0.1 +
     volumeRatio * 0.1)%js).

(** Exact arithmetic: the binary64 sum is rounded (the lowest risk score,
    [0 * 0.4 + (1 / 3) * 0.3 + 0 * 0.3], is 0.09999999999999999 in JavaScript
    and 0.1 here), so statements about [risk_score] keep a margin that
    rounding cannot cross. *)
Definition calculateRiskLevel (a : AnalysisInput) : RiskLevel :=
  let m := metrics a in
  let volatilityWeight := (score (volatility m) * 0.4)%js in
  let marketMaturityWeight := ((Fin (mm_score (marketMaturity m)) / 3) * 0.3)%js in
  let volumeWeight := ((1 - score (volumeHealth m)) * 0.3)%js in
  let riskScore := (volatilityWeight + marketMaturityWeight + volumeWeight)%js in
  {| level := if gtb riskScore 0.66 then "Alto"
              else if gtb riskScore 0.33 then "Medio" else "Bajo";
     risk_score := riskScore |}.

Definition calculatePotentialReturn (a : AnalysisInput) : num :=
  let m := metrics a in
  let marketGrowthFactor := (log10 (Fin 1e11 / Fin (marketCap (basic a))) * 0.5)%js in
  let volumeHealthFactor := score (volumeHealth m) in
  let momentumFactor := momentum m in
  let maturityFactor := ((4 - Fin (mm_score (marketMaturity m))) / 3)%js in
  let potential :=
    ((marketGrowthFactor * 0.4 +
      volumeHealthFactor * 0.2 +
      momentumFactor * 0.2 +
      maturityFactor * 0.2) * 10)%js in
  JSNum.max 1 (JSNum.min 10 potential).

(** [[...].filter(x => x !== null)] *)
Fixpoint filter_nonnull (xs : list (option R)) : list R :=
  match xs with
  | [] => []
  | Some x :: xs' => x :: filter_nonnull xs'
  | None :: xs' => filter_nonnull xs'
  end.

(** [performBaseAnalysis]; [coinbaseTokens] is the set read by
    [updateCoinbaseTokens], as a membership test. *)
Definition performBaseAnalysis (coinbaseTokens : string -> bool) (c : CoinData)
  : Analysis :=
  let priceChanges := filter_nonnull
    [percent_change_1h c; percent_change_24h c;
     percent_change_7d c; percent_change_30d c] in
  let ai :=
    {| basic := {| bname := cd_name c; symbol := cd_symbol c; price := cd_price c;
                   marketCap := market_cap c; volume24h := volume_24h c |};
       metrics := {| marketMaturity := calculateMarketMaturity (market_cap c);
                     volumeHealth :=
                       calculateVolumeHealth (Fin (volume_24h c) / Fin (market_cap c))%js;
                     momentum := calculateMomentumIndicator priceChanges;
                     volatility := calculateVolatilityScore priceChanges |} |} in
  {| input := ai;
     performance := {| change1h := percent_change_1h c;
                       change24h := percent_change_24h c;
                       change7d := percent_change_7d c;
                       change30d := percent_change_30d c |};
     isOnCoinbase := coinbaseTokens (cd_symbol c);
     investmentScore := calculateInvestmentScore ai;
     riskLevel := calculateRiskLevel ai;
     potentialReturn := calculatePotentialReturn ai |}.

(** [String.prototype.toUpperCase] on ASCII strings. *)
Definition ascii_upper (c : ascii) : ascii :=
  let n := nat_of_ascii c in
  if ((97 <=? n) && (n <=? 122))%nat then ascii_of_nat (n - 32) else c.

Fixpoint toUpperCase (s : string) : string :=
  match s with
  | EmptyString => EmptyString
  | String c s' => String (ascii_upper c) (toUpperCase s')
  end.

Definition adjustForBTCDominance (a : Analysis) (d : DominanceState) : AdjustedAnalysis :=
  let isBTC := String.eqb (toUpperCase (symbol (basic (input a)))) "BTC" in
  let dominanceImpact := if isBTC then btcImpact (impact d) else altcoinImpact (impact d) in
  {| analysis := a;
     btcDominance := d;
     adjustedScore := (investmentScore a * Fin dominanceImpact)%js |}.

End Analyzer.

(** ** Fetches, logging and [scanTopOpportunities] *)

Module Scanner.

Import Dominance Analyzer.

(** The external collaborators, as seen by the analyzer.
    - [listings]: response of [/cryptocurrency/listings/latest]
      ([None] when the request fails);
    - [quotes sym]: [response.data.data] of [/cryptocurrency/quotes/latest]
      for [symbol = sym], as a lookup by key ([None] when the request fails);
    - [dominance_feed k]: the BTC dominance returned by the [k]-th request to
      [/global-metrics/quotes/latest] ([None] when it fails); successive
      requests may return different readings;
    - [coinbaseTokens]: membership in [this.coinbaseTokens]. *)
Record World := {
  listings : option (list CoinData);
  quotes : string -> option (string -> option CoinData);
  dominance_feed : nat -> option R;
  coinbaseTokens : string -> bool
}.

(** The errors thrown: a failed request, ['Token no encontrado'], and the
    [throw new Error(ctx + error.message)] re-wrappings. *)
Inductive err :=
| ErrRequest (what : string)
| ErrNotFound
| ErrContext (ctx : string) (e : err).

(** The analyzer's mutable state: how many dominance requests were made, and
    the lines appended to the log file (symbol, error). *)
Record St := {
  dom_fetches : nat;
  log_file : list (string * err)
}.

Definition M (A : Type) : Type := St -> (err + A) * St.

Definition ret {A} (x : A) : M A := fun s => (inr x, s).

Definition throw {A} (e : err) : M A := fun s => (inl e, s).

Definition bind {A B} (m : M A) (f : A -> M B) : M B :=
  fun s => match m s with
           | (inl e, s') => (inl e, s')
           | (inr x, s') => f x s'
           end.

Notation "x <- m ;; k" := (bind m (fun x => k))
  (at level 61, m at next level, right associativity).

(** [try { ... } catch (error) { throw new Error(ctx + error.message) }] *)
Definition rethrow_with {A} (ctx : string) (m : M A) : M A :=
  fun s => match m s with
           | (inl e, s') => (inl (ErrContext ctx e), s')
           | r => r
           end.

(** [try { ... } catch (error) { ... }]: the outcome becomes a value. *)
Definition attempt {A} (m : M A) : M (err + A) :=
  fun s => let (r, s') := m s in (inr r, s').

(** [this.log(`Error analizando ${symbol}: ${error.message}`)]; a failure to
    write the log is swallowed by [log] itself. *)
Definition log_error (sym : string) (e : err) : M unit :=
  fun s => (inr tt, {| dom_fetches := dom_fetches s;
                       log_file := log_file s ++ [(sym, e)] |}).

Section WithWorld.

Variable w : World.

(** [getCurrentDominance]: one request to the global-metrics endpoint. *)
Definition getCurrentDominance : M R :=
  fun s =>
    let k := dom_fetches s in
    let s' := {| dom_fetches := S k; log_file := log_file s |} in
    match dominance_feed w k with
    | Some d => (inr d, s')
    | None => (inl (ErrContext "Error obteniendo dominancia BTC: "
                      (ErrRequest "global-metrics")), s')
    end.

Definition analyzeMarketCycle : M DominanceState :=
  rethrow_with "Error en analisis de ciclo: "
    (currentDominance <- getCurrentDominance ;;
     ret (marketCycle currentDominance)).

(** [analyzeToken]: the quote request and [analyzeMarketCycle] are both
    started by [Promise.all], which rejects if either does. *)
Definition analyzeToken (sym : string) : M AdjustedAnalysis :=
  rethrow_with ("Error analizando " ++ sym ++ ": ")
    (let tokenData := quotes w (toUpperCase sym) in
     btcDominance <- attempt analyzeMarketCycle ;;
     match tokenData, btcDominance with
     | None, _ => throw (ErrRequest "quotes")
     | _, inl e => throw e
     | Some data, inr dom =>
         match data (toUpperCase sym) with
         | None => throw ErrNotFound
         | Some coinData =>
             ret (adjustForBTCDominance
                    (performBaseAnalysis (coinbaseTokens w) coinData) dom)
         end
     end).

(** The [for (const coin of response.data.data)] loop. *)
Fixpoint scan_loop (coins : list CoinData) (opportunities : list AdjustedAnalysis)
  : M (list AdjustedAnalysis) :=
  match coins with
  | [] => ret opportunities
  | coin :: rest =>
      r <- attempt (analyzeToken (cd_symbol coin)) ;;
      match r with
      | inr a => scan_loop rest (opportunities ++ [a])
      | inl e => _ <- log_error (cd_symbol coin) e ;; scan_loop rest opportunities
      end
  end.

End WithWorld.

(** The comparator [(a, b) => b.adjustedScore - a.adjustedScore]. *)
Definition compare_desc (a b : AdjustedAnalysis) : num :=
  (adjustedScore b - adjustedScore a)%js.

(** [Array.prototype.sort] with a comparator: stable, and a comparator result
    that is NaN counts as +0 (SortCompare).  [insert x l] puts [x] after every
    element of [l] that does not compare greater than it. *)
Fixpoint insert (x : AdjustedAnalysis) (l : list AdjustedAnalysis) : list AdjustedAnalysis :=
  match l with
  | [] => [x]
  | y :: ys => if ltb 0 (compare_desc y x) then x :: y :: ys else y :: insert x ys
  end.

Definition js_sort (l : list AdjustedAnalysis) : list AdjustedAnalysis :=
  fold_left (fun acc x => insert x acc) l [].

Definition scanTopOpportunities (w : World) : M (list AdjustedAnalysis) :=
  rethrow_with "Error escaneando oportunidades: "
    (match listings w with
     | None => throw (ErrRequest "listings")
     | Some coins =>
         opportunities <- scan_loop w coins [] ;;
         ret (firstn 10 (js_sort opportunities))
     end).

End Scanner.

(** ** Sorting by a numeric key, display text *)

Module JSSort.

Section SortBy.

Context {A : Type} (key : A -> num).

(** [arr.sort((a, b) => key(b) - key(a))]: the stable insertion that
    [Scanner.insert] performs, for any element type and key. *)
Fixpoint insert_by (x : A) (l : list A) : list A :=
  match l with
  | [] => [x]
  | y :: ys => if ltb 0 (key x - key y)%js then x :: y :: ys else y :: insert_by x ys
  end.

Definition sort_by (l : list A) : list A :=
  fold_left (fun acc x => insert_by x acc) l [].

(** Every element's key is [>=] the next one's. *)
Fixpoint sorted_by (l : list A) : Prop :=
  match l with
  | a :: ((b :: _) as rest) => geb (key a) (key b) = true /\ sorted_by rest
  | _ => True
  end.

End SortBy.

End JSSort.

Module Display.

(** [interpretInvestmentScore] (accents dropped). *)
Definition interpretInvestmentScore (score : num) : string :=
  if geb score 8 then "Oportunidad Excepcional - Metricas sobresalientes en todos los aspectos"
  else if geb score 7 then "Oportunidad Muy Buena - Fuerte potencial con riesgos moderados"
  else if geb score 5 then "Oportunidad Solida - Buen balance entre potencial y riesgo"
  else if geb score 3 then "Oportunidad Especulativa - Alto riesgo con potencial incierto"
  else "Oportunidad de Alto Riesgo - Se recomienda extrema precaucion".

End Display.

(** ** [AdvancedCryptoScanner] (first class of src/monitor.js) *)

Module BasicScanner.

Import Analyzer JSSort.

Definition minMarketCap : R := 1000000.
Definition minVolume : R := 100000.
Definition minVolumeRatio : R := 0.05.

(** A [percent_change_*] field used in arithmetic: [null] converts to 0. *)
Definition nullable (o : option R) : num :=
  match o with Some x => Fin x | None => Fin 0 end.

(** [Math.abs] *)
Definition js_abs (a : num) : num :=
  match a with
  | Fin x => Fin (Rabs x)
  | NInf => PInf
  | a => a
  end.

Definition normalizeValue (value min max : num) : num :=
  JSNum.max min (JSNum.min value max).

Definition calculateScore (coin : CoinData) : num :=
  let momentum := ((nullable (percent_change_24h coin) + 100) / 100)%js in
  let trend := ((nullable (percent_change_7d coin) + 100) / 100)%js in
  let volume :=
    JSNum.min (Fin (volume_24h coin) / Fin (market_cap coin) * 10)%js 5 in
  ((momentum * 0.3 + trend * 0.4 + volume * 0.3) * 100)%js.

Definition calculateRisk (coin : CoinData) : string :=
  let ratio := (Fin (volume_24h coin) / Fin (market_cap coin))%js in
  let marketCapRisk : R :=
    if Rltb (market_cap coin) 10000000 then 3
    else if Rltb (market_cap coin) 100000000 then 2 else 1 in
  let volumeRisk : R := if ltb ratio 0.1 then 3 else if ltb ratio 0.2 then 2 else 1 in
  let change := js_abs (nullable (percent_change_24h coin)) in
  let volatilityRisk : R := if gtb change 20 then 3 else if gtb change 10 then 2 else 1 in
  let avgRisk := (marketCapRisk + volumeRisk + volatilityRisk) / 3 in
  if Rltb 2.5 avgRisk then "Alto" else if Rltb 1.5 avgRisk then "Medio" else "Bajo".

Definition calculatePotentialReturn (coin : CoinData) : num :=
  let marketCapFactor :=
    JSNum.max 0 (log10 (Fin 1000000000 / JSNum.max (Fin (market_cap coin)) 1))%js in
  let momentumFactor :=
    JSNum.max 0.1 ((nullable (percent_change_7d coin) + 100) / 100)%js in
  let volumeFactor :=
    normalizeValue (Fin (volume_24h coin) / Fin (market_cap coin) * 10)%js 0.1 5 in
  normalizeValue (marketCapFactor * momentumFactor * volumeFactor)%js 1 10.

Record Opportunity := {
  o_symbol : string;
  o_name : string;
  o_price : R;
  o_marketCap : R;
  o_volume24h : R;
  o_change24h : option R;
  o_change7d : option R;
  o_volumeRatio : num;
  o_score : num;
  o_risk : string;
  o_potentialReturn : num
}.

(** The [.filter] predicate of [scanOpportunities]. *)
Definition passes_filters (coin : CoinData) : bool :=
  Rleb minMarketCap (market_cap coin) &&
  Rleb minVolume (volume_24h coin) &&
  geb (Fin (volume_24h coin) / Fin (market_cap coin))%js minVolumeRatio.

(** The [.map] callback; its [catch] is unreachable on quotes that have
    every field, so it is left out. *)
Definition to_opportunity (coin : CoinData) : Opportunity :=
  {| o_symbol := cd_symbol coin;
     o_name := cd_name coin;
     o_price := cd_price coin;
     o_marketCap := market_cap coin;
     o_volume24h := volume_24h coin;
     o_change24h := percent_change_24h coin;
     o_change7d := percent_change_7d coin;
     o_volumeRatio := (Fin (volume_24h coin) / Fin (market_cap coin))%js;
     o_score := calculateScore coin;
     o_risk := calculateRisk coin;
     o_potentialReturn := calculatePotentialReturn coin |}.

Inductive scan_error := RequestFailed | InvalidApiResponse.

(** [scanOpportunities]: [response] is [None] when the request fails and
    [Some None] when [response.data?.data] is missing.  The result comes with
    the lines written to the log. *)
Definition scanOpportunities (response : option (option (list CoinData)))
  : (scan_error + list Opportunity) * list scan_error :=
  match response with
  | None => (inl RequestFailed, [RequestFailed])
  | Some None => (inl InvalidApiResponse, [InvalidApiResponse])
  | Some (Some coins) =>
      (inr (sort_by o_score (map to_opportunity (filter passes_filters coins))), [])
  end.

End BasicScanner.

(** ** Auxiliary definitions used in the statements *)

Module Fixtures.

Import Dominance Analyzer Scanner.

(** The letter-case variants of ["BTC"]. *)
Definition btc_case_variants : list string :=
  ["BTC"; "BTc"; "BtC"; "Btc"; "bTC"; "bTc"; "btC"; "btc"]%string.

(** A base analysis with the given symbol, market data, metrics and
    investment score. *)
Definition sample_input (sym : string) (mc vol mm vh mom vs : R) : AnalysisInput :=
  {| basic := {| bname := sym; symbol := sym; price := 100;
                 marketCap := mc; volume24h := vol |};
     metrics := {| marketMaturity := {| mm_score := mm; mm_category := EmptyString |};
                   volumeHealth := {| score := vh; category := EmptyString |};
                   momentum := mom;
                   volatility := {| score := vs; category := EmptyString |} |} |}.

Definition sample_analysis (sym : string) (investment : R) : Analysis :=
  {| input := sample_input sym 1e12 5e10 1.5 0.8 0.7 0.4;
     performance := {| change1h := Some 1; change24h := Some 5;
                       change7d := Some 10; change30d := Some 20 |};
     isOnCoinbase := true;
     investmentScore := investment;
     riskLevel := {| level := "Medio"; risk_score := 0.5 |};
     potentialReturn := 5 |}.

(** A quote with the given symbol and market cap and four percent changes. *)
Definition sample_coin (sym : string) (mc : R) : CoinData :=
  {| cd_name := sym; cd_symbol := sym; cd_price := 100;
     market_cap := mc; volume_24h := 1e8;
     percent_change_1h := Some 1; percent_change_24h := Some 5;
     percent_change_7d := Some 10; percent_change_30d := Some 20 |}.

(** A quote for which the API reports [null] for every percent change. *)
Definition null_coin (sym : string) (mc : R) : CoinData :=
  {| cd_name := sym; cd_symbol := sym; cd_price := 100;
     market_cap := mc; volume_24h := 1e8;
     percent_change_1h := None; percent_change_24h := None;
     percent_change_7d := None; percent_change_30d := None |}.

(** A market-data service that lists [coins] and answers every quote request
    with all of them keyed by symbol; the [k]-th dominance request returns
    [feed k]. *)
Definition world_of (coins : list CoinData) (feed : nat -> option R) : World :=
  {| listings := Some coins;
     quotes := fun _ => Some (fun key => find (fun c => String.eqb (cd_symbol c) key) coins);
     dominance_feed := feed;
     coinbaseTokens := fun _ => false |}.

Definition st0 : St := {| dom_fetches := 0; log_file := [] |}.

(** Five quotes, the third with market cap 0. *)
Definition batch5 : list CoinData :=
  [sample_coin "AAA" 1e9; sample_coin "BBB" 2e9; sample_coin "CCC" 0;
   sample_coin "DDD" 5e8; sample_coin "EEE" 3e10].

(** Two successive dominance readings that disagree: 65, then 30. *)
Definition feed_65_30 (k : nat) : option R :=
  match k with 0%nat => Some 65 | 1%nat => Some 30 | _ => None end.

(** Every element's [adjustedScore] is [>=] the next one's. *)
Fixpoint sorted_desc (l : list AdjustedAnalysis) : Prop :=
  match l with
  | a :: ((b :: _) as rest) =>
      geb (adjustedScore a) (adjustedScore b) = true /\ sorted_desc rest
  | _ => True
  end.

(** Percent changes of magnitude at most 1e100: the sums of the changes and
    of their squared deviations, which [calculateMomentumIndicator] and
    [calculateVolatilityScore] compute in binary64, then stay far below the
    overflow threshold (about 1.8e308), so none becomes Infinity. *)
Definition no_overflow_changes (l : list R) : Prop :=
  Forall (fun x => Rabs x <= 1e100) l.

(** An adjusted analysis with the given symbol and adjusted score. *)
Definition scored (sym : string) (r : R) : AdjustedAnalysis :=
  {| analysis := sample_analysis sym r; btcDominance := marketCycle 50;
     adjustedScore := Fin r |}.

(** The analyses of the coins whose [analyzeToken] call succeeded, in order. *)
Definition kept_of (rs : list (err + AdjustedAnalysis)) : list AdjustedAnalysis :=
  flat_map (fun r => match r with inr a => [a] | inl _ => [] end) rs.

(** The log lines (symbol, error) of the coins whose [analyzeToken] call
    threw, in order. *)
Definition logged_of (coins : list CoinData) (rs : list (err + AdjustedAnalysis))
  : list (string * err) :=
  flat_map (fun p => match snd p with
                     | inl e => [(cd_symbol (fst p), e)]
                     | inr _ => []
                     end) (combine coins rs).

End Fixtures.

(** * Proofs *)

(** ** Arithmetic on finite values and propagation of the special values *)

Module NumFacts.

Lemma add_fin (x y : R) : (Fin x + Fin y)%js = Fin (x + y).
Proof. reflexivity. Qed.

Lemma sub_fin (x y : R) : (Fin x - Fin y)%js = Fin (x - y).
Proof. reflexivity. Qed.

Lemma mul_fin (x y : R) : (Fin x * Fin y)%js = Fin (x * y).
Proof. reflexivity. Qed.

Lemma div_fin (x y : R) : y <> 0 -> (Fin x / Fin y)%js = Fin (x / y).
Proof.
  intros Hy. unfold JSNum.div, Reqb.
  destruct (Req_dec_T y 0); [contradiction | reflexivity].
Qed.

Lemma div_zero_pos (x : R) : 0 < x -> (Fin x / Fin 0)%js = PInf.
Proof.
  intros Hx. unfold JSNum.div, Reqb, inf_of_sign, Rltb.
  destruct (Req_dec_T 0 0); [| congruence].
  destruct (Req_dec_T x 0); [lra |].
  destruct (Rlt_dec 0 x); [reflexivity | lra].
Qed.

Lemma div_zero_zero : (Fin 0 / Fin 0)%js = NaN.
Proof.
  unfold JSNum.div, Reqb. destruct (Req_dec_T 0 0); [reflexivity | congruence].
Qed.

Lemma log10_fin (x : R) : 0 < x -> log10 (Fin x) = Fin (ln x / ln 10).
Proof.
  intros Hx. unfold log10, Rltb. destruct (Rlt_dec 0 x); [reflexivity | lra].
Qed.

Lemma log10_neg (x : R) : x < 0 -> log10 (Fin x) = NaN.
Proof.
  intros Hx. unfold log10, Rltb, Reqb.
  destruct (Rlt_dec 0 x); [lra |].
  destruct (Req_dec_T x 0); [lra | reflexivity].
Qed.

Lemma mul_pinf_pos (x : R) : 0 < x -> (PInf * Fin x)%js = PInf.
Proof.
  intros Hx. unfold JSNum.mul, mul_inf, Reqb, Rltb.
  destruct (Req_dec_T x 0); [lra |].
  destruct (Rlt_dec 0 x); [reflexivity | lra].
Qed.

Lemma min_fin (x y : R) : JSNum.min (Fin x) (Fin y) = Fin (Rmin x y).
Proof.
  unfold JSNum.min, ltb, Rltb, Rmin.
  destruct (Rlt_dec y x), (Rle_dec x y); f_equal; lra.
Qed.

Lemma max_fin (x y : R) : JSNum.max (Fin x) (Fin y) = Fin (Rmax x y).
Proof.
  unfold JSNum.max, ltb, Rltb, Rmax.
  destruct (Rlt_dec x y), (Rle_dec x y); f_equal; lra.
Qed.

Lemma add_nan_r (a : num) : (a + NaN)%js = NaN.
Proof. destruct a; reflexivity. Qed.

Lemma mul_nan_l (a : num) : (NaN * a)%js = NaN.
Proof. reflexivity. Qed.

Lemma add_nan_l (a : num) : (NaN + a)%js = NaN.
Proof. reflexivity. Qed.

Lemma min_nan_r (a : num) : JSNum.min a NaN = NaN.
Proof. destruct a; reflexivity. Qed.

Lemma max_nan_r (a : num) : JSNum.max a NaN = NaN.
Proof. destruct a; reflexivity. Qed.

Lemma sub_nan_r (a : num) : (a - NaN)%js = NaN.
Proof. destruct a; reflexivity. Qed.

Lemma add_pinf_l (x : R) : (PInf + Fin x)%js = PInf.
Proof. reflexivity. Qed.

Lemma log10_pinf : log10 PInf = PInf.
Proof. reflexivity. Qed.

Lemma min_fin_pinf (x : R) : JSNum.min (Fin x) PInf = Fin x.
Proof. reflexivity. Qed.

(** [Math.max(1, Math.min(10, t))] is NaN or a number in [[1, 10]]. *)
Lemma clamp_range (t : num) :
  JSNum.max 1 (JSNum.min 10 t) = NaN \/
  exists x, JSNum.max 1 (JSNum.min 10 t) = Fin x /\ 1 <= x <= 10.
Proof.
  destruct t as [x | | |].
  - right. rewrite min_fin, max_fin. exists (Rmax 1 (Rmin 10 x)). split; [reflexivity |].
    unfold Rmax, Rmin. destruct (Rle_dec 10 x), (Rle_dec 1 _); lra.
  - right. exists 10. split; [| lra].
    change (JSNum.min 10 PInf) with (Fin 10). rewrite max_fin. f_equal.
    unfold Rmax. destruct (Rle_dec 1 10); lra.
  - right. exists 1. split; [| lra].
    unfold JSNum.min, JSNum.max, ltb. reflexivity.
  - left. reflexivity.
Qed.

Lemma clamp_bounds (t : R) : 1 <= Rmax 1 (Rmin 10 t) <= 10.
Proof. unfold Rmax, Rmin. destruct (Rle_dec 10 t), (Rle_dec 1 _); lra. Qed.

Lemma clamp_fin (t : R) :
  exists x, JSNum.max 1 (JSNum.min 10 (Fin t)) = Fin x /\ 1 <= x <= 10.
Proof.
  rewrite min_fin, max_fin. exists (Rmax 1 (Rmin 10 t)). split; [reflexivity |].
  unfold Rmax, Rmin. destruct (Rle_dec 10 t), (Rle_dec 1 _); lra.
Qed.

End NumFacts.

Import NumFacts.

(** ** [BitcoinDominanceAnalyzer] *)

Module DominanceProofs.

Import Dominance.

Ltac cases_dominance :=
  unfold Rleb, Rltb, HIGH, MEDIUM, LOW;
  repeat match goal with
         | |- context [Rle_dec ?a ?b] => destruct (Rle_dec a b)
         | |- context [Rlt_dec ?a ?b] => destruct (Rlt_dec a b)
         end.

(** The three impact values sum to 2 exactly also in binary64: the sums
    computed with Rocq's primitive IEEE-754 floats (the literals round to
    the nearest binary64 value, as in JavaScript). *)
Local Set Warnings "-inexact-float".
Lemma impact_sums_binary64 :
  PrimFloat.eqb (1.2 + (2 - 1.2))%float 2%float = true /\
  PrimFloat.eqb (0.8 + (2 - 0.8))%float 2%float = true /\
  PrimFloat.eqb (1.0 + (2 - 1.0))%float 2%float = true.
Proof. vm_compute. repeat split. Qed.

(** Claim C2: for every dominance in [[0, 100]], [assessMarketImpact] gives
    [btcImpact + altcoinImpact = 2], with [btcImpact = 1.2] when the dominance
    is at least 60, [0.8] when it is at most 35, and [1.0] otherwise. *)
Theorem assessMarketImpact_sum (dominance : R) (Hd : 0 <= dominance <= 100) :
  let i := assessMarketImpact dominance in
  btcImpact i + altcoinImpact i = 2 /\
  (60 <= dominance -> btcImpact i = 1.2) /\
  (dominance < 60 -> dominance <= 35 -> btcImpact i = 0.8) /\
  (35 < dominance < 60 -> btcImpact i = 1.0).
Proof.
  simpl. unfold calculateAltcoinImpact, calculateBTCImpact.
  cases_dominance; repeat split; intros; lra.
Qed.

Lemma assessMarketImpact_sum_witness :
  (0 <= 50 <= 100) /\
  btcImpact (assessMarketImpact 50) + altcoinImpact (assessMarketImpact 50) = 2.
Proof.
  split; [lra |].
  apply (assessMarketImpact_sum 50). lra.
Defined.

(** Claim C3: [determineCyclePhase] applies its rules in order: at least 60
    gives [btc_dominance] (high), else at most 35 gives [altcoin_season]
    (high), else below 45 gives [transition] (medium), else [accumulation]
    (medium); so 65, 35 and 45 give [btc_dominance], [altcoin_season] and
    [accumulation]. *)
Theorem determineCyclePhase_rules (dominance : R) :
  let p := determineCyclePhase dominance in
  (60 <= dominance -> name p = btc_dominance /\ strength p = "high"%string) /\
  (dominance < 60 -> dominance <= 35 ->
     name p = altcoin_season /\ strength p = "high"%string) /\
  (35 < dominance < 60 -> dominance < 45 ->
     name p = transition /\ strength p = "medium"%string) /\
  (45 <= dominance < 60 -> name p = accumulation /\ strength p = "medium"%string) /\
  name (determineCyclePhase 65) = btc_dominance /\
  name (determineCyclePhase 35) = altcoin_season /\
  name (determineCyclePhase 45) = accumulation.
Proof.
  simpl. unfold determineCyclePhase.
  cases_dominance; simpl; repeat split; intros; try reflexivity; lra.
Qed.

End DominanceProofs.

(** ** The BTC test of [adjustForBTCDominance] *)

Module AdjustProofs.

Import Dominance Analyzer Fixtures.

Ltac ascii_cases c :=
  destruct c as [b0 b1 b2 b3 b4 b5 b6 b7];
  destruct b0, b1, b2, b3, b4, b5, b6, b7.

Lemma ascii_upper_B (c : ascii) :
  ascii_upper c = "B"%char -> c = "B"%char \/ c = "b"%char.
Proof.
  ascii_cases c; vm_compute; intros H;
    first [discriminate H | left; reflexivity | right; reflexivity].
Qed.

Lemma ascii_upper_T (c : ascii) :
  ascii_upper c = "T"%char -> c = "T"%char \/ c = "t"%char.
Proof.
  ascii_cases c; vm_compute; intros H;
    first [discriminate H | left; reflexivity | right; reflexivity].
Qed.

Lemma ascii_upper_C (c : ascii) :
  ascii_upper c = "C"%char -> c = "C"%char \/ c = "c"%char.
Proof.
  ascii_cases c; vm_compute; intros H;
    first [discriminate H | left; reflexivity | right; reflexivity].
Qed.

Lemma toUpperCase_BTC (s : string) :
  toUpperCase s = "BTC"%string <-> In s btc_case_variants.
Proof.
  split.
  - destruct s as [| c1 [| c2 [| c3 [| c4 s]]]]; simpl; intros H; try discriminate H.
    injection H as H1 H2 H3.
    destruct (ascii_upper_B c1 H1) as [-> | ->];
    destruct (ascii_upper_T c2 H2) as [-> | ->];
    destruct (ascii_upper_C c3 H3) as [-> | ->];
    simpl; tauto.
  - simpl. intros H.
    repeat (destruct H as [<- | H]; [reflexivity |]). contradiction.
Qed.

Lemma isBTC_iff (s : string) :
  String.eqb (toUpperCase s) "BTC" = true <-> In s btc_case_variants.
Proof. rewrite String.eqb_eq. apply toUpperCase_BTC. Qed.

(** Claim C10: the BTC test is case-insensitive: [adjustForBTCDominance]
    multiplies the investment score by [btcImpact] exactly when the symbol is
    a letter-case variant of ["BTC"], and by [altcoinImpact] otherwise. *)
Theorem adjustForBTCDominance_case_insensitive (a : Analysis) (d : DominanceState) :
  adjustedScore (adjustForBTCDominance a d) =
  (investmentScore a *
   Fin (if in_dec string_dec (symbol (basic (input a))) btc_case_variants
        then btcImpact (impact d) else altcoinImpact (impact d)))%js.
Proof.
  unfold adjustForBTCDominance; cbn [adjustedScore].
  destruct (in_dec string_dec (symbol (basic (input a))) btc_case_variants)
    as [Hin | Hout].
  - apply isBTC_iff in Hin. rewrite Hin. reflexivity.
  - destruct (String.eqb (toUpperCase (symbol (basic (input a)))) "BTC") eqn:E;
      [| reflexivity].
    apply isBTC_iff in E. contradiction.
Qed.

Lemma marketCycle_65_impact :
  btcImpact (impact (marketCycle 65)) = 1.2 /\
  altcoinImpact (impact (marketCycle 65)) = 0.8.
Proof.
  simpl. unfold calculateAltcoinImpact, calculateBTCImpact, Rleb, HIGH.
  destruct (Rle_dec 60 65); [split; [reflexivity | lra] | lra].
Qed.

Lemma marketCycle_impact_values (d : R) :
  let i := impact (marketCycle d) in
  (btcImpact i = 1.2 /\ altcoinImpact i = 0.8) \/
  (btcImpact i = 0.8 /\ altcoinImpact i = 1.2) \/
  (btcImpact i = 1.0 /\ altcoinImpact i = 1.0).
Proof.
  simpl. unfold calculateAltcoinImpact, calculateBTCImpact, Rleb.
  destruct (Rle_dec HIGH d); [left | destruct (Rle_dec d LOW); [right; left | right; right]];
    split; try reflexivity; lra.
Qed.

(** The investment score of a base analysis is NaN or a number in [[1, 10]]. *)
Lemma investmentScore_range (cb : string -> bool) (c : CoinData) :
  investmentScore (performBaseAnalysis cb c) = NaN \/
  exists x, investmentScore (performBaseAnalysis cb c) = Fin x /\ 1 <= x <= 10.
Proof.
  unfold performBaseAnalysis. cbn [investmentScore].
  unfold calculateInvestmentScore. cbv zeta. apply clamp_range.
Qed.

(** Claim C4, as stated, fails: the symbol ["btc"] is not ["BTC"], yet at
    dominance 65 its score is multiplied by [btcImpact] (1.2), not by
    [altcoinImpact] (0.8). *)
Lemma adjustForBTCDominance_lowercase_btc :
  "btc"%string <> "BTC"%string /\
  adjustedScore (adjustForBTCDominance (sample_analysis "btc" 5) (marketCycle 65)) = Fin (5 * 1.2) /\
  adjustedScore (adjustForBTCDominance (sample_analysis "btc" 5) (marketCycle 65)) <>
  (investmentScore (sample_analysis "btc" 5) *
   Fin (altcoinImpact (impact (marketCycle 65))))%js.
Proof.
  destruct marketCycle_65_impact as [Hb Ha].
  unfold adjustForBTCDominance. cbn [adjustedScore investmentScore sample_analysis].
  change (String.eqb (toUpperCase (symbol (basic (input (sample_analysis "btc" 5))))) "BTC")
    with true.
  rewrite Hb, Ha, !mul_fin.
  split; [discriminate | split; [reflexivity |]].
  intros H. injection H. lra.
Qed.

(** Claim C4 (amended): for a base analysis built by [performBaseAnalysis]
    and a dominance state built by [analyzeMarketCycle], the adjusted score is
    the investment score times [btcImpact] when the upper-cased symbol is
    ["BTC"] and times [altcoinImpact] otherwise; when the applied impact is
    not 1.0 the adjusted score is not [===] to the investment score; at
    dominance 65 a symbol that does not upper-case to ["BTC"] gets the factor
    0.8, strictly below a numeric investment score. *)
Theorem adjustForBTCDominance_impact (cb : string -> bool) (c : CoinData) (d : R) :
  let a := performBaseAnalysis cb c in
  let ds := marketCycle d in
  let isBTC := String.eqb (toUpperCase (cd_symbol c)) "BTC" in
  let applied := if isBTC then btcImpact (impact ds) else altcoinImpact (impact ds) in
  adjustedScore (adjustForBTCDominance a ds) = (investmentScore a * Fin applied)%js /\
  (applied <> 1 ->
     seqb (adjustedScore (adjustForBTCDominance a ds)) (investmentScore a) = false) /\
  (d = 65 -> isBTC = false ->
     adjustedScore (adjustForBTCDominance a ds) = (investmentScore a * Fin 0.8)%js /\
     forall x, investmentScore a = Fin x ->
       exists y, adjustedScore (adjustForBTCDominance a ds) = Fin y /\ y < x).
Proof.
  intros a ds isBTC applied.
  assert (Hadj : adjustedScore (adjustForBTCDominance a ds) =
                 (investmentScore a * Fin applied)%js) by reflexivity.
  split; [exact Hadj | split].
  - intros Hne. rewrite Hadj.
    destruct (investmentScore_range cb c) as [Hn | [x [Hx Hr]]].
    + fold a in Hn. rewrite Hn. reflexivity.
    + fold a in Hx. rewrite Hx, mul_fin. unfold seqb, Reqb.
      destruct (Req_dec_T (x * applied) x) as [E | E]; [| reflexivity].
      exfalso. apply Hne.
      apply (Rmult_eq_reg_l x); [| lra]. lra.
  - intros Hd Hb. subst d.
    assert (Happ : applied = 0.8).
    { unfold applied. rewrite Hb. apply marketCycle_65_impact. }
    rewrite Hadj, Happ. split; [reflexivity |].
    intros x Hx. rewrite Hx, mul_fin. exists (x * 0.8). split; [reflexivity |].
    destruct (investmentScore_range cb c) as [Hn | [x' [Hx' Hr]]].
    + fold a in Hn. congruence.
    + fold a in Hx'. rewrite Hx in Hx'. injection Hx' as <-. lra.
Qed.

End AdjustProofs.

(** ** The scorers *)

Module ScoreProofs.

Import Dominance Analyzer Fixtures.

Ltac fin_arith :=
  repeat first [ rewrite sub_fin | rewrite mul_fin | rewrite add_fin
               | rewrite min_fin | rewrite max_fin
               | rewrite div_fin by lra ].

(** Claim C1: for a positive market cap and well-formed metrics (maturity
    score in {1, 1.5, 2, 2.5, 3}, volume-health score, momentum and
    volatility score in [[0, 1]]), [calculateInvestmentScore] and
    [calculatePotentialReturn] return numbers in [[1, 10]]. *)
Theorem scores_in_range (a : AnalysisInput) (vh mom vs : R)
  (Hmc : 0 < marketCap (basic a))
  (Hmm : In (mm_score (marketMaturity (metrics a))) [1; 1.5; 2; 2.5; 3])
  (Hvh : score (volumeHealth (metrics a)) = Fin vh) (Hvh01 : 0 <= vh <= 1)
  (Hmom : momentum (metrics a) = Fin mom) (Hmom01 : 0 <= mom <= 1)
  (Hvs : score (volatility (metrics a)) = Fin vs) (Hvs01 : 0 <= vs <= 1) :
  (exists s, calculateInvestmentScore a = Fin s /\ 1 <= s <= 10) /\
  (exists p, calculatePotentialReturn a = Fin p /\ 1 <= p <= 10).
Proof.
  destruct a as [[n sy pr mc vol] [[mm mmc] [vhs vhc] mo [vss vsc]]].
  cbn [metrics basic marketMaturity volumeHealth momentum volatility score
       mm_score marketCap volume24h] in *.
  subst vhs mo vss.
  assert (Hq : 0 < 1e11 / mc) by (apply Rdiv_lt_0_compat; lra).
  split.
  - unfold calculateInvestmentScore.
    cbn [metrics basic marketMaturity volumeHealth momentum volatility score
         mm_score marketCap volume24h].
    rewrite (div_fin 1e11 mc), log10_fin, (div_fin vol mc) by lra.
    fin_arith. eexists; split; [reflexivity | apply clamp_bounds].
  - unfold calculatePotentialReturn.
    cbn [metrics basic marketMaturity volumeHealth momentum volatility score
         mm_score marketCap volume24h].
    rewrite (div_fin 1e11 mc), log10_fin by lra.
    fin_arith. eexists; split; [reflexivity | apply clamp_bounds].
Qed.

Lemma scores_in_range_witness :
  let a := sample_input "BTC" 1e12 5e10 1.5 0.8 0.7 0.4 in
  (0 < marketCap (basic a)) /\
  (exists s, calculateInvestmentScore a = Fin s /\ 1 <= s <= 10) /\
  (exists p, calculatePotentialReturn a = Fin p /\ 1 <= p <= 10).
Proof.
  intros a. split; [simpl; lra |].
  apply (scores_in_range a 0.8 0.7 0.4); simpl;
    first [lra | reflexivity | right; left; reflexivity].
Defined.

Ltac nan_arith :=
  repeat first [ rewrite mul_nan_l | rewrite sub_nan_r | rewrite add_nan_l | rewrite add_nan_r
               | rewrite min_nan_r | rewrite max_nan_r ].

Ltac inf_arith :=
  repeat first [ rewrite log10_pinf | rewrite mul_pinf_pos by lra
               | rewrite add_pinf_l | rewrite min_fin_pinf ].

Lemma quotient_neg (mc : R) : mc < 0 -> 1e11 / mc < 0.
Proof.
  intros H. assert (/ mc < 0) by (apply Rinv_lt_0_compat; lra).
  unfold Rdiv. nra.
Qed.

(** Claim C5, as stated, fails: nothing rejects a market cap of 0 or below.
    With market cap 0 the scorers return the numbers 7.05 and 10 (the log10
    term is +Infinity and hits its cap); with market cap -1 they return NaN. *)
Lemma scores_nonpositive_marketCap :
  let a0 := sample_input "ZERO" 0 1e9 3 1 1 0 in
  let a1 := sample_input "NEG" (-1) 1e9 3 1 1 0 in
  marketCap (basic a0) <= 0 /\
  calculateInvestmentScore a0 = Fin 7.05 /\
  calculatePotentialReturn a0 = Fin 10 /\
  marketCap (basic a1) <= 0 /\
  calculateInvestmentScore a1 = NaN /\
  calculatePotentialReturn a1 = NaN.
Proof.
  intros a0 a1. unfold a0, a1, sample_input, calculateInvestmentScore,
    calculatePotentialReturn.
  cbn [metrics basic marketMaturity volumeHealth momentum volatility score
       mm_score marketCap volume24h].
  rewrite (div_zero_pos 1e11), (div_zero_pos 1e9) by lra.
  rewrite (div_fin 1e11 (-1)), (div_fin 1e9 (-1)), log10_neg
    by (try apply quotient_neg; lra).
  inf_arith. fin_arith. inf_arith. nan_arith.
  repeat split; try reflexivity; try lra.
  - f_equal. rewrite (Rmax_right 0 (1 - 0)) by lra.
    rewrite Rmin_right, Rmax_right by lra. lra.
  - rewrite max_fin. f_equal. apply Rmax_right. lra.
Qed.

(** Claim C5 (amended): the scorers check no market cap and never reject an
    input: [calculateInvestmentScore] and [calculatePotentialReturn] always
    return NaN or a number in [[1, 10]]; a negative market cap makes both NaN
    (log10 of a negative number); a market cap of 0 makes the log10 term
    +Infinity, so with numeric metrics the potential return is 10, and with a
    positive volume the investment score is a number in [[1, 10]]. *)
Theorem scores_no_marketCap_check (a : AnalysisInput) :
  (calculateInvestmentScore a = NaN \/
   exists x, calculateInvestmentScore a = Fin x /\ 1 <= x <= 10) /\
  (calculatePotentialReturn a = NaN \/
   exists x, calculatePotentialReturn a = Fin x /\ 1 <= x <= 10) /\
  (marketCap (basic a) < 0 ->
   calculateInvestmentScore a = NaN /\ calculatePotentialReturn a = NaN) /\
  (forall vh mom vs, marketCap (basic a) = 0 ->
   score (volumeHealth (metrics a)) = Fin vh ->
   momentum (metrics a) = Fin mom ->
   score (volatility (metrics a)) = Fin vs ->
   calculatePotentialReturn a = Fin 10 /\
   (0 < volume24h (basic a) ->
    exists x, calculateInvestmentScore a = Fin x /\ 1 <= x <= 10)).
Proof.
  split; [unfold calculateInvestmentScore; cbv zeta; apply clamp_range |].
  split; [unfold calculatePotentialReturn; cbv zeta; apply clamp_range |].
  destruct a as [[n sy pr mc vol] [[mm mmc] [vhs vhc] mo [vss vsc]]].
  unfold calculateInvestmentScore, calculatePotentialReturn.
  cbn [metrics basic marketMaturity volumeHealth momentum volatility score
       mm_score marketCap volume24h].
  split.
  - intros Hmc.
    rewrite (div_fin 1e11 mc), log10_neg by (try apply quotient_neg; lra).
    nan_arith. split; reflexivity.
  - intros vh mom vs -> -> -> ->.
    rewrite (div_zero_pos 1e11) by lra.
    inf_arith. fin_arith. inf_arith. split.
    + rewrite max_fin. f_equal. apply Rmax_right. lra.
    + intros Hv. rewrite (div_zero_pos vol) by lra.
      inf_arith. fin_arith.
      eexists; split; [reflexivity | apply clamp_bounds].
Qed.

(** ** Momentum and volatility on short series *)

Lemma momentum_empty : calculateMomentumIndicator [] = Fin 1.
Proof.
  unfold calculateMomentumIndicator. cbn -[seqb].
  unfold seqb, Reqb. destruct (Req_dec_T 0 0); [reflexivity | congruence].
Qed.

Lemma volatility_empty :
  calculateVolatilityScore [] = {| score := NaN; category := "Baja" |}.
Proof.
  unfold calculateVolatilityScore. cbn [length fold_left INR].
  rewrite div_zero_zero. reflexivity.
Qed.

Lemma volatility_single (x : R) : score (calculateVolatilityScore [x]) = Fin 0.
Proof.
  unfold calculateVolatilityScore. cbn [length fold_left INR score].
  fin_arith.
  replace ((0 + (x - (0 + x) / 1) * (x - (0 + x) / 1)) / 1) with 0 by field.
  unfold JSNum.sqrt, Rleb. destruct (Rle_dec 0 0); [| lra].
  rewrite sqrt_0. unfold VOL_HIGH. fin_arith. f_equal.
  rewrite Rmin_left; [field | unfold Rdiv; lra].
Qed.

(** A quote whose four percent changes are all [null] gets the investment
    score NaN: the volatility of the empty series is NaN and NaN propagates
    through [Math.max(0, 1 - NaN)] and the weighted sum. *)
Lemma investmentScore_all_null (cb : string -> bool) (c : CoinData) :
  percent_change_1h c = None -> percent_change_24h c = None ->
  percent_change_7d c = None -> percent_change_30d c = None ->
  investmentScore (performBaseAnalysis cb c) = NaN.
Proof.
  intros H1 H2 H3 H4. unfold performBaseAnalysis.
  rewrite H1, H2, H3, H4. cbn [investmentScore filter_nonnull].
  unfold calculateInvestmentScore.
  cbn [metrics basic volatility].
  rewrite volatility_empty. cbn [score].
  nan_arith. reflexivity.
Qed.

(** Claim C9 (code bug): on the empty series [calculateMomentumIndicator]
    returns 1 and on a one-element series the volatility score is 0, but on
    the empty series [calculateVolatilityScore] divides 0 by a length of 0
    and returns the score NaN (category ["Baja"]), which makes the
    investment score of such a quote NaN. *)
Theorem momentum_volatility_short_series :
  calculateMomentumIndicator [] = Fin 1 /\
  (forall x, score (calculateVolatilityScore [x]) = Fin 0) /\
  calculateVolatilityScore [] = {| score := NaN; category := "Baja" |} /\
  (forall cb c, percent_change_1h c = None -> percent_change_24h c = None ->
     percent_change_7d c = None -> percent_change_30d c = None ->
     investmentScore (performBaseAnalysis cb c) = NaN).
Proof.
  split; [exact momentum_empty |].
  split; [exact volatility_single |].
  split; [exact volatility_empty |].
  exact investmentScore_all_null.
Qed.

End ScoreProofs.

(** ** [analyzeToken] and [scanTopOpportunities] *)

Module ScanProofs.

Import Dominance Analyzer Scanner Fixtures ScoreProofs.

Lemma analyzeToken_state (w : World) (sym : string) (s : St) :
  snd (analyzeToken w sym s) =
  {| dom_fetches := S (dom_fetches s); log_file := log_file s |}.
Proof.
  cbv [analyzeToken analyzeMarketCycle getCurrentDominance rethrow_with bind
       attempt ret throw].
  destruct (dominance_feed w (dom_fetches s)), (quotes w (toUpperCase sym)) as [data |];
    try reflexivity.
  destruct (data (toUpperCase sym)); reflexivity.
Qed.

Lemma analyzeToken_ok (w : World) (sym : string) (data : string -> option CoinData)
  (cd : CoinData) (d : R) (s : St) :
  quotes w (toUpperCase sym) = Some data ->
  data (toUpperCase sym) = Some cd ->
  dominance_feed w (dom_fetches s) = Some d ->
  analyzeToken w sym s =
  (inr (adjustForBTCDominance (performBaseAnalysis (coinbaseTokens w) cd) (marketCycle d)),
   {| dom_fetches := S (dom_fetches s); log_file := log_file s |}).
Proof.
  intros Hq Hd Hf.
  cbv [analyzeToken analyzeMarketCycle getCurrentDominance rethrow_with bind
       attempt ret throw].
  rewrite Hf, Hq, Hd. reflexivity.
Qed.

Lemma analyzeToken_reading (w : World) (sym : string) (s : St) (a : AdjustedAnalysis) :
  fst (analyzeToken w sym s) = inr a ->
  exists d, dominance_feed w (dom_fetches s) = Some d /\ btcDominance a = marketCycle d.
Proof.
  cbv [analyzeToken analyzeMarketCycle getCurrentDominance rethrow_with bind
       attempt ret throw].
  destruct (dominance_feed w (dom_fetches s)) as [d |] eqn:Ef,
    (quotes w (toUpperCase sym)) as [data |]; simpl; try discriminate.
  destruct (data (toUpperCase sym)); simpl; intros H; [| discriminate].
  injection H as <-. exists d. split; reflexivity.
Qed.

Lemma scan_loop_step_ok (w : World) (c : CoinData) (rest : list CoinData)
  (acc : list AdjustedAnalysis) (s : St) (data : string -> option CoinData)
  (cd : CoinData) (d : R) :
  quotes w (toUpperCase (cd_symbol c)) = Some data ->
  data (toUpperCase (cd_symbol c)) = Some cd ->
  dominance_feed w (dom_fetches s) = Some d ->
  scan_loop w (c :: rest) acc s =
  scan_loop w rest
    (acc ++ [adjustForBTCDominance (performBaseAnalysis (coinbaseTokens w) cd) (marketCycle d)])
    {| dom_fetches := S (dom_fetches s); log_file := log_file s |}.
Proof.
  intros Hq Hd Hf. cbn [scan_loop]. unfold bind at 1, attempt.
  rewrite (analyzeToken_ok w (cd_symbol c) data cd d s Hq Hd Hf). reflexivity.
Qed.

(** The loop never fails: every coin is either kept or logged, and each
    coin costs one dominance request. *)
Lemma scan_loop_spec (w : World) (coins : list CoinData) :
  forall acc s, exists kept logged,
    scan_loop w coins acc s =
    (inr (acc ++ kept),
     {| dom_fetches := (dom_fetches s + length coins)%nat; log_file := log_file s ++ logged |}) /\
    (length kept + length logged = length coins)%nat.
Proof.
  induction coins as [| c rest IH]; intros acc s.
  - exists [], []. rewrite !app_nil_r, Nat.add_0_r. split; [| reflexivity].
    destruct s; reflexivity.
  - cbn [scan_loop]. unfold bind at 1, attempt.
    pose proof (analyzeToken_state w (cd_symbol c) s) as Hst.
    destruct (analyzeToken w (cd_symbol c) s) as [[e | a] s1]; simpl in Hst; subst s1.
    + unfold bind, log_error. cbn [dom_fetches log_file].
      destruct (IH acc {| dom_fetches := S (dom_fetches s);
                          log_file := log_file s ++ [(cd_symbol c, e)] |})
        as [kept [logged [E L]]].
      rewrite E. exists kept, ((cd_symbol c, e) :: logged).
      cbn [dom_fetches log_file length]. rewrite <- app_assoc. simpl.
      split; [do 3 f_equal; lia | lia].
    + destruct (IH (acc ++ [a]) {| dom_fetches := S (dom_fetches s);
                                  log_file := log_file s |})
        as [kept [logged [E L]]].
      rewrite E. exists (a :: kept), logged.
      cbn [dom_fetches log_file length]. rewrite <- app_assoc. simpl.
      split; [do 3 f_equal; lia | lia].
Qed.

(** [analyzeToken] reads the dominance counter, never the log file. *)
Lemma analyzeToken_log_indep (w : World) (sym : string) (s : St) (l : list (string * err)) :
  fst (analyzeToken w sym s) =
  fst (analyzeToken w sym {| dom_fetches := dom_fetches s; log_file := l |}).
Proof.
  cbv [analyzeToken analyzeMarketCycle getCurrentDominance rethrow_with bind
       attempt ret throw]. cbn [dom_fetches].
  destruct (dominance_feed w (dom_fetches s)), (quotes w (toUpperCase sym)) as [data |];
    try reflexivity.
  destruct (data (toUpperCase sym)); reflexivity.
Qed.

(** The loop, coin by coin: the [i]-th coin is analyzed after [i] earlier
    dominance requests; it is kept when that call succeeds and logged with
    its error when it throws. *)
Lemma scan_loop_outcomes (w : World) (coins : list CoinData) :
  forall acc s, exists rs,
    length rs = length coins /\
    (forall i c, nth_error coins i = Some c ->
       nth_error rs i =
       Some (fst (analyzeToken w (cd_symbol c)
                    {| dom_fetches := (dom_fetches s + i)%nat; log_file := log_file s |}))) /\
    scan_loop w coins acc s =
    (inr (acc ++ kept_of rs),
     {| dom_fetches := (dom_fetches s + length coins)%nat;
        log_file := log_file s ++ logged_of coins rs |}).
Proof.
  induction coins as [| c rest IH]; intros acc s.
  - exists []. split; [reflexivity |]. split.
    + intros i c H. destruct i; discriminate.
    + cbn. rewrite !app_nil_r, Nat.add_0_r. destruct s; reflexivity.
  - cbn [scan_loop]. unfold bind at 1, attempt.
    pose proof (analyzeToken_state w (cd_symbol c) s) as Hst.
    destruct (analyzeToken w (cd_symbol c) s) as [r s1] eqn:Ea; simpl in Hst; subst s1.
    assert (E0 : fst (analyzeToken w (cd_symbol c)
                        {| dom_fetches := (dom_fetches s + 0)%nat; log_file := log_file s |}) = r).
    { rewrite Nat.add_0_r, <- analyzeToken_log_indep, Ea. reflexivity. }
    destruct r as [e | a].
    + unfold bind, log_error. cbn [dom_fetches log_file].
      destruct (IH acc {| dom_fetches := S (dom_fetches s);
                          log_file := log_file s ++ [(cd_symbol c, e)] |})
        as [rs [L [N E]]].
      exists (inl e :: rs). split; [simpl; rewrite L; reflexivity |]. split.
      * intros [| i] c' Hc; simpl in Hc |- *.
        -- injection Hc as <-. rewrite E0. reflexivity.
        -- rewrite (N i c' Hc). cbn [dom_fetches log_file].
           rewrite (analyzeToken_log_indep w (cd_symbol c') _ (log_file s)).
           cbn [dom_fetches].
           replace (S (dom_fetches s) + i)%nat with (dom_fetches s + S i)%nat by lia.
           reflexivity.
      * rewrite E. cbn [dom_fetches log_file length kept_of logged_of combine flat_map snd fst].
        rewrite <- app_assoc. simpl. do 3 f_equal. lia.
    + destruct (IH (acc ++ [a]) {| dom_fetches := S (dom_fetches s);
                                  log_file := log_file s |})
        as [rs [L [N E]]].
      exists (inr a :: rs). split; [simpl; rewrite L; reflexivity |]. split.
      * intros [| i] c' Hc; simpl in Hc |- *.
        -- injection Hc as <-. rewrite E0. reflexivity.
        -- rewrite (N i c' Hc). cbn [dom_fetches log_file].
           replace (S (dom_fetches s) + i)%nat with (dom_fetches s + S i)%nat by lia.
           reflexivity.
      * rewrite E. cbn [dom_fetches log_file length kept_of logged_of combine flat_map snd fst].
        rewrite <- app_assoc. simpl. do 3 f_equal. lia.
Qed.

Lemma insert_perm (x : AdjustedAnalysis) (l : list AdjustedAnalysis) :
  Permutation (insert x l) (x :: l).
Proof.
  induction l as [| y ys IH]; cbn [insert]; [reflexivity |].
  destruct (ltb 0 (compare_desc y x)); [reflexivity |].
  rewrite IH. apply perm_swap.
Qed.

Lemma js_sort_perm (l : list AdjustedAnalysis) : Permutation (js_sort l) l.
Proof.
  unfold js_sort.
  assert (G : forall acc, Permutation (fold_left (fun acc x => insert x acc) l acc) (l ++ acc)).
  { induction l as [| x l IH]; intros acc; simpl; [reflexivity |].
    rewrite IH, insert_perm. apply Permutation_sym, Permutation_middle. }
  rewrite G, app_nil_r. reflexivity.
Qed.

Lemma scan_spec (w : World) (s : St) (coins : list CoinData) :
  listings w = Some coins ->
  exists ops logged,
    scan_loop w coins [] s =
    (inr ops, {| dom_fetches := (dom_fetches s + length coins)%nat; log_file := log_file s ++ logged |}) /\
    scanTopOpportunities w s =
    (inr (firstn 10 (js_sort ops)),
     {| dom_fetches := (dom_fetches s + length coins)%nat; log_file := log_file s ++ logged |}) /\
    (length ops + length logged = length coins)%nat.
Proof.
  intros H. destruct (scan_loop_spec w coins [] s) as [kept [logged [E L]]].
  exists kept, logged. simpl in E. split; [exact E |]. split; [| exact L].
  unfold scanTopOpportunities, rethrow_with. rewrite H. unfold bind. rewrite E.
  reflexivity.
Qed.

Lemma firstn_10_sort (l : list AdjustedAnalysis) :
  (length l <= 10)%nat -> Permutation (firstn 10 (js_sort l)) l.
Proof.
  intros H. rewrite firstn_all2; [apply js_sort_perm |].
  rewrite (Permutation_length (js_sort_perm l)). exact H.
Qed.

Lemma geb_nan_l (b : num) : geb NaN b = false.
Proof. destruct b; reflexivity. Qed.

Lemma geb_nan_r (a : num) : geb a NaN = false.
Proof. destruct a; reflexivity. Qed.

(** A list of two or more entries one of which has the score NaN is not
    sorted: NaN is not [>=] anything, nor anything [>=] NaN. *)
Lemma not_sorted_with_nan (l : list AdjustedAnalysis) :
  (2 <= length l)%nat -> (exists a, In a l /\ adjustedScore a = NaN) -> ~ sorted_desc l.
Proof.
  induction l as [| a l IH]; intros Hlen [x [Hin Hx]] Hs; [simpl in Hlen; lia |].
  destruct l as [| b t]; [simpl in Hlen; lia |].
  destruct Hs as [Hab Hs].
  destruct Hin as [<- | Hin].
  - rewrite Hx, geb_nan_l in Hab. discriminate.
  - destruct t as [| c t'].
    + destruct Hin as [<- | []]. rewrite Hx, geb_nan_r in Hab. discriminate.
    + apply IH; [simpl; lia | exists x; split; assumption | exact Hs].
Qed.

Ltac run_loop :=
  unfold scanTopOpportunities, rethrow_with; cbn [listings world_of]; unfold bind at 1;
  repeat (erewrite scan_loop_step_ok by reflexivity);
  cbn [scan_loop ret app dom_fetches log_file st0].

(** Claim C6, as stated, fails: in a batch of five quotes where one has
    market cap 0 nothing is dropped or logged; the scan returns five entries,
    among them the one with market cap 0. *)
Lemma scan_keeps_zero_marketCap :
  exists out s',
    scanTopOpportunities (world_of batch5 (fun _ => Some 50)) st0 = (inr out, s') /\
    length out = 5%nat /\ log_file s' = [] /\
    exists a, In a out /\ marketCap (basic (input (analysis a))) = 0.
Proof.
  unfold batch5. run_loop.
  eexists; eexists; split; [reflexivity |].
  split; [| split; [reflexivity |]].
  - match goal with
    | |- length (firstn 10 (js_sort ?l)) = _ =>
        rewrite (Permutation_length (firstn_10_sort l ltac:(simpl; lia)))
    end.
    reflexivity.
  - eexists. split.
    + eapply Permutation_in; [symmetry; apply firstn_10_sort; simpl; lia |].
      simpl. right; right; left. reflexivity.
    + reflexivity.
Qed.

(** The kept analyses and the log lines together account for every coin. *)
Lemma kept_logged_length (coins : list CoinData) :
  forall rs : list (err + AdjustedAnalysis), length rs = length coins ->
  (length (kept_of rs) + length (logged_of coins rs) = length coins)%nat.
Proof.
  induction coins as [| c rest IH]; intros [| r rs] L; simpl in L |- *;
    try discriminate; [reflexivity |].
  injection L as L. specialize (IH rs L). unfold kept_of, logged_of in *.
  destruct r; simpl; lia.
Qed.

(** Claim C6 (amended): when the listings request succeeds the scan never
    raises.  The [i]-th listed coin is analyzed by one [analyzeToken] call
    made after [i] earlier dominance requests; with [rs] the outcomes of
    these calls, the coins whose call succeeded are kept, in order, each
    coin whose call threw is logged once with its symbol and error, and the
    top 10 of the kept analyses are returned.  [analyzeToken] throws for no
    quote value: whenever its quote and dominance requests succeed and the
    symbol is in the response it returns the adjusted analysis, whatever the
    market cap (0 included). *)
Theorem scan_isolates_failures (w : World) (s : St) (coins : list CoinData)
  (H : listings w = Some coins) :
  (exists rs : list (err + AdjustedAnalysis),
     length rs = length coins /\
     (forall i c, nth_error coins i = Some c ->
        nth_error rs i =
        Some (fst (analyzeToken w (cd_symbol c)
                     {| dom_fetches := (dom_fetches s + i)%nat; log_file := log_file s |}))) /\
     (forall i c data cd d, nth_error coins i = Some c ->
        quotes w (toUpperCase (cd_symbol c)) = Some data ->
        data (toUpperCase (cd_symbol c)) = Some cd ->
        dominance_feed w (dom_fetches s + i) = Some d ->
        nth_error rs i =
        Some (inr (adjustForBTCDominance (performBaseAnalysis (coinbaseTokens w) cd)
                                         (marketCycle d)))) /\
     scanTopOpportunities w s =
     (inr (firstn 10 (js_sort (kept_of rs))),
      {| dom_fetches := (dom_fetches s + length coins)%nat;
         log_file := log_file s ++ logged_of coins rs |}) /\
     (length (kept_of rs) + length (logged_of coins rs) = length coins)%nat) /\
  (forall sym data cd d s0,
     quotes w (toUpperCase sym) = Some data ->
     data (toUpperCase sym) = Some cd ->
     dominance_feed w (dom_fetches s0) = Some d ->
     fst (analyzeToken w sym s0) =
     inr (adjustForBTCDominance (performBaseAnalysis (coinbaseTokens w) cd) (marketCycle d))).
Proof.
  split.
  - destruct (scan_loop_outcomes w coins [] s) as [rs [L [N E]]].
    exists rs. split; [exact L |]. split; [exact N |]. split; [| split].
    + intros i c data cd d Hc Hq Hd Hf. rewrite (N i c Hc).
      rewrite (analyzeToken_ok w (cd_symbol c) data cd d
        {| dom_fetches := (dom_fetches s + i)%nat; log_file := log_file s |} Hq Hd Hf).
      reflexivity.
    + unfold scanTopOpportunities, rethrow_with. rewrite H. unfold bind.
      rewrite E. reflexivity.
    + apply kept_logged_length. exact L.
  - intros sym data cd d s0 Hq Hd Hf.
    rewrite (analyzeToken_ok w sym data cd d s0 Hq Hd Hf). reflexivity.
Qed.

Lemma scan_isolates_failures_witness :
  listings (world_of batch5 (fun _ => Some 50)) = Some batch5 /\
  exists rs,
    scanTopOpportunities (world_of batch5 (fun _ => Some 50)) st0 =
    (inr (firstn 10 (js_sort (kept_of rs))),
     {| dom_fetches := (0 + length batch5)%nat; log_file := [] ++ logged_of batch5 rs |}) /\
    (length (kept_of rs) + length (logged_of batch5 rs) = length batch5)%nat.
Proof.
  split; [reflexivity |].
  destruct (scan_isolates_failures (world_of batch5 (fun _ => Some 50)) st0 batch5 eq_refl)
    as [[rs [_ [_ [_ [E L]]]]] _].
  exists rs. split; [exact E | exact L].
Defined.

(** Claim C7, as stated, fails: a scan over two coins makes two dominance
    requests, one per [analyzeToken] call; when the two readings differ (65
    then 30) the two kept analyses carry different dominance states. *)
Lemma scan_two_dominance_readings :
  exists out s',
    scanTopOpportunities
      (world_of [sample_coin "AAA" 1e9; sample_coin "BBB" 2e9] feed_65_30) st0 =
    (inr out, s') /\
    dom_fetches s' = 2%nat /\
    In (marketCycle 65) (map btcDominance out) /\
    In (marketCycle 30) (map btcDominance out) /\
    marketCycle 65 <> marketCycle 30.
Proof.
  run_loop.
  eexists; eexists; split; [reflexivity |].
  split; [reflexivity |].
  match goal with
  | |- In _ (map _ (firstn 10 (js_sort ?l))) /\ _ =>
      pose proof (firstn_10_sort l ltac:(simpl; lia)) as P
  end.
  split; [| split].
  - eapply Permutation_in; [apply Permutation_map, Permutation_sym, P |].
    simpl. left. reflexivity.
  - eapply Permutation_in; [apply Permutation_map, Permutation_sym, P |].
    simpl. right. left. reflexivity.
  - intros E. apply (f_equal currentDominance) in E. simpl in E. lra.
Qed.

(** Claim C7 (amended): the scan does not share one dominance reading:
    [analyzeToken] makes its own dominance request on every call, so a scan
    over the listed coins makes one request per coin, and each kept analysis
    carries the dominance state built from the reading of its own request. *)
Theorem scan_fetches_dominance_per_asset (w : World) (s : St) (coins : list CoinData)
  (H : listings w = Some coins) :
  (exists out s',
     scanTopOpportunities w s = (inr out, s') /\
     dom_fetches s' = (dom_fetches s + length coins)%nat) /\
  (forall sym s0, dom_fetches (snd (analyzeToken w sym s0)) = S (dom_fetches s0)) /\
  (forall sym s0 a, fst (analyzeToken w sym s0) = inr a ->
     exists d, dominance_feed w (dom_fetches s0) = Some d /\ btcDominance a = marketCycle d).
Proof.
  split; [| split].
  - destruct (scan_spec w s coins H) as [ops [logged [_ [E _]]]].
    eexists; eexists; split; [exact E | reflexivity].
  - intros sym s0. rewrite analyzeToken_state. reflexivity.
  - exact (analyzeToken_reading w).
Qed.

Lemma scan_fetches_dominance_per_asset_witness :
  listings (world_of [sample_coin "AAA" 1e9; sample_coin "BBB" 2e9] feed_65_30) =
    Some [sample_coin "AAA" 1e9; sample_coin "BBB" 2e9] /\
  exists out s',
    scanTopOpportunities
      (world_of [sample_coin "AAA" 1e9; sample_coin "BBB" 2e9] feed_65_30) st0 =
    (inr out, s') /\ dom_fetches s' = (0 + 2)%nat.
Proof.
  split; [reflexivity |].
  apply (scan_fetches_dominance_per_asset
           (world_of [sample_coin "AAA" 1e9; sample_coin "BBB" 2e9] feed_65_30) st0
           [sample_coin "AAA" 1e9; sample_coin "BBB" 2e9]).
  reflexivity.
Defined.

(** Claim C8 (code bug): a listed coin whose four percent changes are all
    [null] gets the adjusted score NaN (see [investmentScore_all_null]); the
    scan keeps it, and the returned list is then not sorted by adjusted score,
    whatever order the sort leaves it in, since NaN is neither [>=] nor [<=]
    any score. *)
Theorem scan_nan_breaks_order :
  exists out s',
    scanTopOpportunities
      (world_of [sample_coin "AAA" 1e9; null_coin "NUL" 1e9] (fun _ => Some 50)) st0 =
    (inr out, s') /\
    length out = 2%nat /\
    (exists a, In a out /\ adjustedScore a = NaN) /\
    ~ sorted_desc out.
Proof.
  run_loop.
  eexists; eexists; split; [reflexivity |].
  match goal with
  | |- length (firstn 10 (js_sort ?l)) = _ /\ _ =>
      pose proof (firstn_10_sort l ltac:(simpl; lia)) as P
  end.
  assert (Hnan : exists a, In a (firstn 10 (js_sort
     [adjustForBTCDominance
        (performBaseAnalysis (fun _ => false) (sample_coin "AAA" 1e9)) (marketCycle 50);
      adjustForBTCDominance
        (performBaseAnalysis (fun _ => false) (null_coin "NUL" 1e9)) (marketCycle 50)]))
     /\ adjustedScore a = NaN).
  { eexists. split.
    - eapply Permutation_in; [apply Permutation_sym, P |]. simpl. right. left. reflexivity.
    - unfold adjustForBTCDominance. cbn [adjustedScore].
      rewrite investmentScore_all_null by reflexivity. reflexivity. }
  split; [rewrite (Permutation_length P); reflexivity |].
  split; [exact Hnan |].
  apply not_sorted_with_nan; [rewrite (Permutation_length P); simpl; lia | exact Hnan].
Qed.

End ScanProofs.

(** ** Sorting with a numeric comparator *)

Module SortProofs.

Import Dominance Analyzer Scanner Fixtures JSSort.

Lemma ltb_sub_fin (a b : R) : ltb 0 (Fin a - Fin b)%js = true <-> b < a.
Proof.
  unfold JSNum.sub, JSNum.add, neg, ltb, Rltb.
  destruct (Rlt_dec 0 (a + - b)); split; intros; try lra; discriminate.
Qed.

Lemma geb_fin (a b : R) : geb (Fin a) (Fin b) = true <-> b <= a.
Proof.
  unfold geb, gtb, ltb, seqb, Rltb, Reqb.
  destruct (Rlt_dec b a), (Req_dec_T a b); simpl; split; intros; try lra; try reflexivity;
    discriminate.
Qed.

Lemma filter_none {A} (p : A -> bool) (l : list A) :
  (forall z, In z l -> p z = false) -> filter p l = [].
Proof.
  induction l as [| y l IH]; intros H; [reflexivity |]. simpl.
  rewrite (H y (or_introl eq_refl)). apply IH. intros z Hz. apply H. right. exact Hz.
Qed.

Lemma filter_cons_app {A} (p : A -> bool) (a : A) (l : list A) :
  filter p (a :: l) = (if p a then [a] else []) ++ filter p l.
Proof. simpl. destruct (p a); reflexivity. Qed.

Section Key.

Context {A : Type} (key : A -> num).

Lemma insert_by_perm (x : A) (l : list A) : Permutation (insert_by key x l) (x :: l).
Proof.
  induction l as [| y ys IH]; cbn [insert_by]; [reflexivity |].
  destruct (ltb 0 (key x - key y)%js); [reflexivity |].
  rewrite IH. apply perm_swap.
Qed.

Lemma sort_by_perm (l : list A) : Permutation (sort_by key l) l.
Proof.
  unfold sort_by.
  assert (G : forall acc, Permutation (fold_left (fun acc x => insert_by key x acc) l acc)
                                      (l ++ acc)).
  { induction l as [| x l IH]; intros acc; simpl; [reflexivity |].
    rewrite IH, insert_by_perm. apply Permutation_sym, Permutation_middle. }
  rewrite G, app_nil_r. reflexivity.
Qed.

Lemma sorted_by_cons (z : A) (l : list A) :
  sorted_by key (z :: l) <->
  (forall h, hd_error l = Some h -> geb (key z) (key h) = true) /\ sorted_by key l.
Proof.
  destruct l as [| h t]; simpl.
  - split; [intros _; split; [discriminate | exact I] | intros _; exact I].
  - split; [intros [H1 H2]; split; [intros h' E; injection E as <-; exact H1 | exact H2] |].
    intros [H1 H2]. split; [apply H1; reflexivity | exact H2].
Qed.

Lemma insert_by_hd (x : A) (l : list A) :
  hd_error (insert_by key x l) = Some x \/ hd_error (insert_by key x l) = hd_error l.
Proof.
  destruct l as [| y ys]; cbn [insert_by]; [left; reflexivity |].
  destruct (ltb 0 (key x - key y)%js); [left | right]; reflexivity.
Qed.

Lemma fin_perm (l l' : list A) :
  Permutation l l' ->
  Forall (fun z => exists r, key z = Fin r) l -> Forall (fun z => exists r, key z = Fin r) l'.
Proof.
  intros P H. rewrite Forall_forall in *. intros z Hz.
  apply H. eapply Permutation_in; [symmetry; exact P | exact Hz].
Qed.

Lemma insert_by_sorted (x : A) (l : list A) :
  Forall (fun z => exists r, key z = Fin r) (x :: l) ->
  sorted_by key l -> sorted_by key (insert_by key x l).
Proof.
  induction l as [| y ys IH]; intros Hf Hs; [exact I |].
  inversion Hf as [| ? ? [rx Hx] Hf']; subst.
  inversion Hf' as [| ? ? [ry Hy] Hfys]; subst.
  cbn [insert_by]. rewrite Hx, Hy.
  destruct (ltb 0 (Fin rx - Fin ry)%js) eqn:E.
  - apply ltb_sub_fin in E. apply sorted_by_cons. split; [| exact Hs].
    intros h Eh. injection Eh as <-. rewrite Hx, Hy. apply geb_fin. lra.
  - rewrite <- Hx, <- Hy in E.
    apply sorted_by_cons in Hs as [Hhd Hs].
    apply sorted_by_cons. split.
    + intros h Eh. destruct (insert_by_hd x ys) as [E1 | E1]; rewrite E1 in Eh.
      * injection Eh as <-. rewrite Hx, Hy. apply geb_fin.
        rewrite Hx, Hy in E.
        destruct (Rlt_dec ry rx) as [Hlt | Hge]; [| lra].
        apply ltb_sub_fin in Hlt. congruence.
      * apply Hhd. exact Eh.
    + apply IH; [constructor; [exists rx; exact Hx | exact Hfys] | exact Hs].
Qed.

Lemma sort_by_sorted (l : list A) :
  Forall (fun z => exists r, key z = Fin r) l -> sorted_by key (sort_by key l).
Proof.
  unfold sort_by.
  assert (G : forall acc,
            Forall (fun z => exists r, key z = Fin r) l ->
            Forall (fun z => exists r, key z = Fin r) acc -> sorted_by key acc ->
            sorted_by key (fold_left (fun acc x => insert_by key x acc) l acc)).
  { induction l as [| x l IH]; intros acc Hl Ha Hs; simpl; [exact Hs |].
    inversion Hl as [| ? ? Hx Hl']; subst.
    apply IH; [exact Hl' | |].
    - apply (fin_perm (x :: acc)); [symmetry; apply insert_by_perm | constructor; assumption].
    - apply insert_by_sorted; [constructor |]; assumption. }
  intros Hf. apply G; [exact Hf | constructor | exact I].
Qed.

Lemma sorted_by_head_max (y : A) (ys : list A) :
  Forall (fun z => exists r, key z = Fin r) (y :: ys) -> sorted_by key (y :: ys) ->
  forall z, In z ys -> exists ry rz, key y = Fin ry /\ key z = Fin rz /\ rz <= ry.
Proof.
  revert y. induction ys as [| h t IH]; intros y Hf Hs z Hz; [destruct Hz |].
  inversion Hf as [| ? ? [ry Hy] Hf']; subst.
  inversion Hf' as [| ? ? [rh Hh] _]; subst.
  destruct Hs as [Hyh Hs]. rewrite Hy, Hh in Hyh. apply geb_fin in Hyh.
  destruct Hz as [<- | Hz].
  - exists ry, rh. auto.
  - destruct (IH h Hf' Hs z Hz) as [rh' [rz [Hh' [Hz' Hle]]]].
    rewrite Hh in Hh'. injection Hh' as <-. exists ry, rz. repeat split; auto; lra.
Qed.

Lemma insert_by_filter (v : R) (x : A) (l : list A) :
  Forall (fun z => exists r, key z = Fin r) (x :: l) -> sorted_by key l ->
  filter (fun z => seqb (key z) (Fin v)) (insert_by key x l) =
  filter (fun z => seqb (key z) (Fin v)) l ++
  (if seqb (key x) (Fin v) then [x] else []).
Proof.
  induction l as [| y ys IH]; intros Hf Hs.
  - simpl. destruct (seqb (key x) (Fin v)); reflexivity.
  - inversion Hf as [| ? ? [rx Hx] Hf']; subst.
    inversion Hf' as [| ? ? [ry Hy] Hfys]; subst.
    cbn [insert_by].
    destruct (ltb 0 (key x - key y)%js) eqn:E.
    + rewrite Hx, Hy in E. apply ltb_sub_fin in E.
      rewrite (filter_cons_app _ x (y :: ys)).
      destruct (seqb (key x) (Fin v)) eqn:Ev.
      * rewrite Hx in Ev. unfold seqb, Reqb in Ev.
        destruct (Req_dec_T rx v) as [<- | ]; [| discriminate].
        rewrite (filter_none _ (y :: ys)); [reflexivity |].
        intros z [<- | Hz].
        -- rewrite Hy. unfold seqb, Reqb. destruct (Req_dec_T ry rx); [lra | reflexivity].
        -- destruct (sorted_by_head_max y ys Hf' Hs z Hz) as [ry' [rz [Hy' [Hz' Hle]]]].
           rewrite Hy in Hy'. injection Hy' as <-.
           rewrite Hz'. unfold seqb, Reqb. destruct (Req_dec_T rz rx); [lra | reflexivity].
      * rewrite app_nil_r. reflexivity.
    + apply sorted_by_cons in Hs as [_ Hs].
      cbn [filter]. rewrite IH by (try constructor; try exists rx; assumption).
      destruct (seqb (key y) (Fin v)); reflexivity.
Qed.

(** Stability: for each score value, the elements with that score keep their
    relative order. *)
Lemma sort_by_filter (v : R) (l : list A) :
  Forall (fun z => exists r, key z = Fin r) l ->
  filter (fun z => seqb (key z) (Fin v)) (sort_by key l) =
  filter (fun z => seqb (key z) (Fin v)) l.
Proof.
  unfold sort_by.
  assert (G : forall acc,
            Forall (fun z => exists r, key z = Fin r) l ->
            Forall (fun z => exists r, key z = Fin r) acc -> sorted_by key acc ->
            filter (fun z => seqb (key z) (Fin v))
              (fold_left (fun acc x => insert_by key x acc) l acc) =
            filter (fun z => seqb (key z) (Fin v)) acc ++
            filter (fun z => seqb (key z) (Fin v)) l).
  { induction l as [| x l IH]; intros acc Hl Ha Hs; simpl; [rewrite app_nil_r; reflexivity |].
    inversion Hl as [| ? ? Hx Hl']; subst.
    rewrite IH; [| exact Hl' | |].
    - rewrite insert_by_filter by (try constructor; assumption).
      rewrite <- app_assoc. destruct (seqb (key x) (Fin v)); reflexivity.
    - apply (fin_perm (x :: acc)); [symmetry; apply insert_by_perm | constructor; assumption].
    - apply insert_by_sorted; [constructor |]; assumption. }
  intros Hf. rewrite G; [reflexivity | exact Hf | constructor | exact I].
Qed.

Lemma sorted_by_firstn (n : nat) (l : list A) :
  sorted_by key l -> sorted_by key (firstn n l).
Proof.
  revert l. induction n as [| n IH]; intros l Hs; [exact I |].
  destruct l as [| y ys]; [exact I |].
  cbn [firstn]. apply sorted_by_cons in Hs as [Hhd Hs].
  apply sorted_by_cons. split; [| apply IH, Hs].
  intros h Eh. apply Hhd.
  destruct n, ys; simpl in *; congruence.
Qed.

End Key.

(** [js_sort] is [sort_by] with the key [adjustedScore]. *)
Lemma insert_is_insert_by (x : AdjustedAnalysis) (l : list AdjustedAnalysis) :
  insert x l = insert_by adjustedScore x l.
Proof.
  induction l as [| y ys IH]; [reflexivity |].
  cbn [insert insert_by]. unfold compare_desc. rewrite IH. reflexivity.
Qed.

Lemma js_sort_is_sort_by (l : list AdjustedAnalysis) : js_sort l = sort_by adjustedScore l.
Proof.
  unfold js_sort, sort_by.
  generalize (@nil AdjustedAnalysis). induction l as [| x l IH]; intros acc; [reflexivity |].
  simpl. rewrite insert_is_insert_by. apply IH.
Qed.

Lemma sorted_desc_iff (l : list AdjustedAnalysis) :
  sorted_desc l <-> sorted_by adjustedScore l.
Proof.
  induction l as [| a l IH]; [simpl; tauto |].
  destruct l as [| b t]; [simpl; tauto |].
  change (sorted_desc (a :: b :: t)) with
    (geb (adjustedScore a) (adjustedScore b) = true /\ sorted_desc (b :: t)).
  change (sorted_by adjustedScore (a :: b :: t)) with
    (geb (adjustedScore a) (adjustedScore b) = true /\ sorted_by adjustedScore (b :: t)).
  rewrite IH. tauto.
Qed.

End SortProofs.

(** ** Ranges of the metrics of [AdvancedCryptoAnalyzer] *)

Module MetricProofs.

Import Dominance Analyzer ScoreProofs.

Lemma div_nonneg (x y : R) : 0 <= x -> 0 < y -> 0 <= x / y.
Proof. intros. unfold Rdiv. apply Rmult_le_pos; [lra | left; apply Rinv_0_lt_compat; lra]. Qed.

Lemma ln_le_mono (x y : R) : 0 < x -> x <= y -> ln x <= ln y.
Proof.
  intros Hx Hxy. destruct (Req_dec x y) as [<- | Hne]; [lra |].
  left. apply ln_increasing; lra.
Qed.

Lemma ln10_pos : 0 < ln 10.
Proof. rewrite <- ln_1. apply ln_increasing; lra. Qed.

Lemma ln51_pos : 0 < ln 51.
Proof. rewrite <- ln_1. apply ln_increasing; lra. Qed.

Lemma fold_add_fin (l : list R) (a : R) :
  fold_left JSNum.add (map Fin l) (Fin a) = Fin (fold_left Rplus l a).
Proof.
  revert a. induction l as [| x l IH]; intros a; [reflexivity |].
  simpl. rewrite IH. reflexivity.
Qed.

Lemma fold_Rplus_ge (l : list R) (a : R) :
  Forall (fun x => 0 <= x) l -> a <= fold_left Rplus l a.
Proof.
  revert a. induction l as [| x l IH]; intros a H; simpl; [lra |].
  inversion H; subst. specialize (IH (a + x) H3). lra.
Qed.

(** The average computed for the gains and for the losses. *)
Lemma average_nonneg (xs : list R) :
  Forall (fun x => 0 <= x) xs ->
  exists g, (if (0 <? length xs)%nat
             then (reduce_sum (map Fin xs) / Fin (INR (length xs)))%js
             else Fin 0) = Fin g /\ 0 <= g.
Proof.
  intros H. destruct xs as [| x xs]; [exists 0; split; [reflexivity | lra] |].
  cbn [length map reduce_sum]. change (0 <? S (length xs))%nat with true. cbv iota.
  inversion H; subst.
  rewrite fold_add_fin, div_fin by (pose proof (pos_INR (length xs)); rewrite S_INR; lra).
  eexists; split; [reflexivity |].
  apply div_nonneg; [| rewrite S_INR; pose proof (pos_INR (length xs)); lra].
  pose proof (fold_Rplus_ge xs x H3). lra.
Qed.

Lemma filter_pos_nonneg (l : list R) :
  Forall (fun x => 0 <= x) (filter (fun x => Rltb 0 x) l).
Proof.
  apply Forall_forall. intros x Hx. apply filter_In in Hx as [_ Hx].
  unfold Rltb in Hx. destruct (Rlt_dec 0 x); [lra | discriminate].
Qed.

Lemma abs_nonneg (l : list R) : Forall (fun x => 0 <= x) (map Rabs l).
Proof. apply Forall_forall. intros x Hx. apply in_map_iff in Hx as [y [<- _]]. apply Rabs_pos. Qed.

Lemma fold_sum_fin (l : list R) (a : R) :
  fold_left (fun acc b => acc + Fin b)%js l (Fin a) = Fin (fold_left Rplus l a).
Proof.
  revert a. induction l as [| x l IH]; intros a; [reflexivity |]. simpl. apply IH.
Qed.

Lemma fold_sq_fin (m : R) (l : list R) (a : R) :
  fold_left (fun acc b => acc + (Fin b - Fin m) * (Fin b - Fin m))%js l (Fin a) =
  Fin (fold_left (fun acc b => acc + (b - m) * (b - m)) l a).
Proof.
  revert a. induction l as [| x l IH]; intros a; [reflexivity |]. simpl. apply IH.
Qed.

Lemma fold_sq_ge (m : R) (l : list R) (a : R) :
  a <= fold_left (fun acc b => acc + (b - m) * (b - m)) l a.
Proof.
  revert a. induction l as [| x l IH]; intros a; simpl; [lra |].
  specialize (IH (a + (x - m) * (x - m))).
  pose proof (Rle_0_sqr (x - m)). unfold Rsqr in *. lra.
Qed.

Lemma volumeHealth_score_eq (r : R) (Hr : 0 <= r) :
  score (calculateVolumeHealth (Fin r)) = Fin (ln (Rmin r EXCEPTIONAL * 100 + 1) / ln 51).
Proof.
  unfold calculateVolumeHealth. cbn [score].
  rewrite min_fin. fin_arith.
  assert (HE : EXCEPTIONAL = 0.5) by (unfold EXCEPTIONAL; lra).
  assert (Hm : 0 <= Rmin r EXCEPTIONAL) by (apply Rmin_glb; lra).
  rewrite (log10_fin (Rmin r EXCEPTIONAL * 100 + 1)), (log10_fin (EXCEPTIONAL * 100 + 1))
    by lra.
  pose proof ln10_pos. pose proof ln51_pos.
  replace (EXCEPTIONAL * 100 + 1) with 51 by lra.
  rewrite div_fin by (apply Rgt_not_eq, Rdiv_pos_pos; lra).
  f_equal. field. lra.
Qed.

Lemma volumeHealth_score_range (r : R) (Hr : 0 <= r) :
  exists v, score (calculateVolumeHealth (Fin r)) = Fin v /\ 0 <= v <= 1.
Proof.
  rewrite volumeHealth_score_eq by exact Hr. eexists; split; [reflexivity |].
  pose proof ln51_pos.
  assert (HE : EXCEPTIONAL = 0.5) by (unfold EXCEPTIONAL; lra).
  assert (Hm : 0 <= Rmin r EXCEPTIONAL <= EXCEPTIONAL)
    by (split; [apply Rmin_glb | apply Rmin_r]; lra).
  assert (0 <= ln (Rmin r EXCEPTIONAL * 100 + 1)).
  { rewrite <- ln_1. apply ln_le_mono; lra. }
  assert (ln (Rmin r EXCEPTIONAL * 100 + 1) <= ln 51) by (apply ln_le_mono; lra).
  split; [apply div_nonneg; lra |].
  apply (Rmult_le_reg_r (ln 51)); [lra |]. unfold Rdiv. rewrite Rmult_assoc, Rinv_l; lra.
Qed.

Lemma momentum_range (l : list R) :
  exists m, calculateMomentumIndicator l = Fin m /\ 0 <= m <= 1.
Proof.
  unfold calculateMomentumIndicator. cbv zeta.
  destruct (average_nonneg _ (filter_pos_nonneg l)) as [g [Hg Hg0]].
  destruct (average_nonneg _ (abs_nonneg (filter (fun x => Rltb x 0) l))) as [q [Hq Hq0]].
  rewrite Hg, Hq.
  unfold seqb at 1, Reqb. destruct (Req_dec_T q 0) as [_ | Hq1].
  - exists 1. split; [reflexivity | lra].
  - assert (0 < q) by lra.
    assert (0 <= g / q) by (apply div_nonneg; lra).
    fin_arith.
    eexists; split; [reflexivity |].
    assert (0 < 100 / (1 + g / q) <= 100).
    { split; [apply Rdiv_lt_0_compat; lra |].
      apply (Rmult_le_reg_r (1 + g / q)); [lra |].
      unfold Rdiv at 1. rewrite Rmult_assoc, Rinv_l; nra. }
    split; unfold Rdiv at 1; nra.
Qed.

Lemma volatility_eq (l : list R) (Hl : l <> []) :
  exists sd, 0 <= sd /\
  calculateVolatilityScore l =
  {| score := Fin (Rmin (sd / VOL_HIGH) 1);
     category := if gtb (Fin sd) VOL_HIGH then "Alta"
                 else if gtb (Fin sd) VOL_MEDIUM then "Media" else "Baja" |}.
Proof.
  unfold calculateVolatilityScore. cbv zeta.
  assert (Hn : 0 < INR (length l)).
  { destruct l; [congruence |]. simpl length. rewrite S_INR. pose proof (pos_INR (length l)). lra. }
  rewrite fold_sum_fin, div_fin by lra. rewrite fold_sq_fin, div_fin by lra.
  set (v := fold_left _ l 0 / INR (length l)).
  assert (Hv : 0 <= v).
  { apply div_nonneg; [apply fold_sq_ge | lra]. }
  unfold JSNum.sqrt, Rleb. destruct (Rle_dec 0 v) as [_ | ]; [| lra].
  exists (R_sqrt.sqrt v). split; [apply sqrt_pos |].
  assert (HV : VOL_HIGH = 25) by reflexivity.
  rewrite div_fin, min_fin by lra. reflexivity.
Qed.

Lemma volatility_range (l : list R) (Hl : l <> []) :
  exists v, score (calculateVolatilityScore l) = Fin v /\ 0 <= v <= 1.
Proof.
  destruct (volatility_eq l Hl) as [sd [Hsd ->]]. cbn [score].
  eexists; split; [reflexivity |].
  assert (HV : VOL_HIGH = 25) by reflexivity.
  split; [apply Rmin_glb; [apply div_nonneg |]; lra | apply Rmin_r].
Qed.

Lemma maturity_bounds (mc : R) : 1 <= mm_score (calculateMarketMaturity mc) <= 3.
Proof.
  unfold calculateMarketMaturity, Rleb.
  repeat match goal with |- context [Rle_dec ?a ?b] => destruct (Rle_dec a b) end;
    simpl; lra.
Qed.

(** The three scores of an analysis whose metrics are in range. *)
Lemma wellformed_scores (a : AnalysisInput) (vh mom vs : R)
  (Hmc : 0 < marketCap (basic a))
  (Hmm : 1 <= mm_score (marketMaturity (metrics a)) <= 3)
  (Hvh : score (volumeHealth (metrics a)) = Fin vh) (Hvh01 : 0 <= vh <= 1)
  (Hmom : momentum (metrics a) = Fin mom) (Hmom01 : 0 <= mom <= 1)
  (Hvs : score (volatility (metrics a)) = Fin vs) (Hvs01 : 0 <= vs <= 1) :
  (exists x, calculateInvestmentScore a = Fin x /\ 1 <= x <= 10) /\
  (exists p, calculatePotentialReturn a = Fin p /\ 1 <= p <= 10) /\
  (exists r, risk_score (calculateRiskLevel a) = Fin r /\ 0.1 <= r <= 1).
Proof.
  destruct a as [[n sy pr mc vol] [[mm mmc] [vhs vhc] mo [vss vsc]]].
  cbn [metrics basic marketMaturity volumeHealth momentum volatility score
       mm_score marketCap volume24h] in *.
  subst vhs mo vss.
  assert (Hq : 0 < 1e11 / mc) by (apply Rdiv_pos_pos; lra).
  split; [| split].
  - unfold calculateInvestmentScore.
    cbn [metrics basic marketMaturity volumeHealth momentum volatility score
         mm_score marketCap volume24h].
    rewrite (div_fin 1e11 mc), log10_fin, (div_fin vol mc) by lra.
    fin_arith. eexists; split; [reflexivity | apply clamp_bounds].
  - unfold calculatePotentialReturn.
    cbn [metrics basic marketMaturity volumeHealth momentum volatility score
         mm_score marketCap volume24h].
    rewrite (div_fin 1e11 mc), log10_fin by lra.
    fin_arith. eexists; split; [reflexivity | apply clamp_bounds].
  - unfold calculateRiskLevel.
    cbn [metrics basic marketMaturity volumeHealth momentum volatility score
         mm_score marketCap volume24h risk_score].
    fin_arith. eexists; split; [reflexivity | lra].
Qed.

(** The metrics [performBaseAnalysis] computes for a quote with a positive
    market cap, a volume that is not negative and some percent change. *)
Lemma base_metrics (cb : string -> bool) (c : CoinData)
  (Hmc : 0 < market_cap c) (Hvol : 0 <= volume_24h c)
  (Hch : filter_nonnull [percent_change_1h c; percent_change_24h c;
                         percent_change_7d c; percent_change_30d c] <> []) :
  let ai := input (performBaseAnalysis cb c) in
  exists vh mom vs,
    0 < marketCap (basic ai) /\
    1 <= mm_score (marketMaturity (metrics ai)) <= 3 /\
    score (volumeHealth (metrics ai)) = Fin vh /\ 0 <= vh <= 1 /\
    momentum (metrics ai) = Fin mom /\ 0 <= mom <= 1 /\
    score (volatility (metrics ai)) = Fin vs /\ 0 <= vs <= 1.
Proof.
  unfold performBaseAnalysis. cbn [input basic metrics marketCap marketMaturity
    volumeHealth momentum volatility].
  rewrite div_fin by lra.
  destruct (volumeHealth_score_range (volume_24h c / market_cap c)) as [vh [Hvh Hvh01]].
  { apply div_nonneg; lra. }
  destruct (momentum_range (filter_nonnull [percent_change_1h c; percent_change_24h c;
                         percent_change_7d c; percent_change_30d c])) as [mom [Hmom Hmom01]].
  destruct (volatility_range _ Hch) as [vs [Hvs Hvs01]].
  pose proof (maturity_bounds (market_cap c)).
  exists vh, mom, vs. repeat split; try assumption; lra.
Qed.

End MetricProofs.

(** ** Extra properties of [AdvancedCryptoAnalyzer] *)

Module AnalyzerProofs.

Import Dominance Analyzer Display Fixtures ScoreProofs MetricProofs AdjustProofs SortProofs.

Lemma adjusted_eq (cb : string -> bool) (c : CoinData) (ds : DominanceState) :
  adjustedScore (adjustForBTCDominance (performBaseAnalysis cb c) ds) =
  (investmentScore (performBaseAnalysis cb c) *
   Fin (if String.eqb (toUpperCase (cd_symbol c)) "BTC"
        then btcImpact (impact ds) else altcoinImpact (impact ds)))%js.
Proof. reflexivity. Qed.

Lemma base_investment_fin (cb : string -> bool) (c : CoinData)
  (Hmc : 0 < market_cap c) (Hvol : 0 <= volume_24h c)
  (Hch : filter_nonnull [percent_change_1h c; percent_change_24h c;
                         percent_change_7d c; percent_change_30d c] <> []) :
  exists x, investmentScore (performBaseAnalysis cb c) = Fin x /\ 1 <= x <= 10.
Proof.
  destruct (base_metrics cb c Hmc Hvol Hch)
    as [vh [mom [vs [H1 [H2 [H3 [H4 [H5 [H6 [H7 H8]]]]]]]]]].
  exact (proj1 (wellformed_scores _ vh mom vs H1 H2 H3 H4 H5 H6 H7 H8)).
Qed.

Lemma average_pos (xs : list R) :
  xs <> [] -> Forall (fun x => 0 < x) xs ->
  exists q, (if (0 <? length xs)%nat
             then (reduce_sum (map Fin xs) / Fin (INR (length xs)))%js
             else Fin 0) = Fin q /\ 0 < q.
Proof.
  intros Hne H. destruct xs as [| x xs]; [congruence |].
  cbn [length map reduce_sum]. change (0 <? S (length xs))%nat with true. cbv iota.
  inversion H as [| ? ? Hx Hxs]; subst.
  assert (Hn : 0 < INR (S (length xs)))
    by (rewrite S_INR; pose proof (pos_INR (length xs)); lra).
  rewrite fold_add_fin, div_fin by lra.
  eexists; split; [reflexivity |].
  apply Rdiv_pos_pos; [| lra].
  assert (Forall (fun x => 0 <= x) xs)
    by (eapply Forall_impl; [| exact Hxs]; intros y Hy; simpl in Hy; lra).
  pose proof (fold_Rplus_ge xs x H0). lra.
Qed.

(** [calculateMarketMaturity] gives one of five scores, and a larger market
    cap never gets a larger (less mature) score. *)
Theorem marketMaturity_steps (mc1 mc2 : R) :
  In (mm_score (calculateMarketMaturity mc1)) [1.0; 1.5; 2.0; 2.5; 3.0] /\
  (mc1 <= mc2 ->
   mm_score (calculateMarketMaturity mc2) <= mm_score (calculateMarketMaturity mc1)).
Proof.
  split.
  - unfold calculateMarketMaturity, Rleb.
    repeat match goal with |- context [Rle_dec ?a ?b] => destruct (Rle_dec a b) end;
      simpl; tauto.
  - intros H. unfold calculateMarketMaturity, Rleb, LARGE_CAP, MID_CAP, SMALL_CAP, MICRO_CAP.
    repeat match goal with |- context [Rle_dec ?a ?b] => destruct (Rle_dec a b) end;
      simpl; lra.
Qed.

(** For a volume ratio that is not negative, the volume-health score is a
    number in [[0, 1]], non-decreasing in the ratio, and equal to 1 from the
    ratio [EXCEPTIONAL] (0.5) on. *)
Theorem volumeHealth_score_monotone (r1 r2 : R) (H1 : 0 <= r1) (H12 : r1 <= r2) :
  exists v1 v2,
    score (calculateVolumeHealth (Fin r1)) = Fin v1 /\
    score (calculateVolumeHealth (Fin r2)) = Fin v2 /\
    0 <= v1 <= v2 /\ v2 <= 1 /\
    (EXCEPTIONAL <= r1 -> v1 = 1).
Proof.
  rewrite !volumeHealth_score_eq by lra.
  do 2 eexists. split; [reflexivity |]. split; [reflexivity |].
  pose proof ln51_pos. assert (HE : EXCEPTIONAL = 0.5) by (unfold EXCEPTIONAL; lra).
  assert (M1 : 0 <= Rmin r1 EXCEPTIONAL) by (apply Rmin_glb; lra).
  assert (M12 : Rmin r1 EXCEPTIONAL <= Rmin r2 EXCEPTIONAL)
    by (unfold Rmin; destruct (Rle_dec r1 EXCEPTIONAL), (Rle_dec r2 EXCEPTIONAL); lra).
  assert (M2 : Rmin r2 EXCEPTIONAL <= EXCEPTIONAL) by apply Rmin_r.
  assert (L0 : 0 <= ln (Rmin r1 EXCEPTIONAL * 100 + 1))
    by (rewrite <- ln_1; apply ln_le_mono; lra).
  assert (L12 : ln (Rmin r1 EXCEPTIONAL * 100 + 1) <= ln (Rmin r2 EXCEPTIONAL * 100 + 1))
    by (apply ln_le_mono; lra).
  assert (L2 : ln (Rmin r2 EXCEPTIONAL * 100 + 1) <= ln 51) by (apply ln_le_mono; lra).
  assert (Hi : 0 < / ln 51) by (apply Rinv_0_lt_compat; lra).
  repeat split.
  - apply div_nonneg; lra.
  - unfold Rdiv. apply Rmult_le_compat_r; lra.
  - apply (Rmult_le_reg_r (ln 51)); [lra |]. unfold Rdiv. rewrite Rmult_assoc, Rinv_l; lra.
  - intros HR. rewrite Rmin_right by lra. replace (EXCEPTIONAL * 100 + 1) with 51 by lra.
    field. lra.
Qed.

Lemma volumeHealth_score_monotone_witness :
  0 <= 0.1 /\ 0.1 <= 0.3 /\
  exists v1 v2,
    score (calculateVolumeHealth (Fin 0.1)) = Fin v1 /\
    score (calculateVolumeHealth (Fin 0.3)) = Fin v2 /\
    0 <= v1 <= v2 /\ v2 <= 1 /\
    (EXCEPTIONAL <= 0.1 -> v1 = 1).
Proof.
  split; [lra |]. split; [lra |].
  apply volumeHealth_score_monotone; lra.
Defined.

(** For a series whose changes cannot overflow, the momentum indicator is a
    number in [[0, 1]]; it is 0 when the series has a loss and no gain. *)
Theorem momentum_bounds (l : list R) (Hb : no_overflow_changes l) :
  (exists m, calculateMomentumIndicator l = Fin m /\ 0 <= m <= 1) /\
  (Forall (fun x => x <= 0) l -> (exists x, In x l /\ x < 0) ->
   calculateMomentumIndicator l = Fin 0).
Proof.
  split; [apply momentum_range |].
  intros Hle [x0 [Hin Hneg]].
  unfold calculateMomentumIndicator. cbv zeta.
  rewrite (filter_none (fun x => Rltb 0 x) l).
  2: { intros z Hz. rewrite Forall_forall in Hle. specialize (Hle z Hz).
       unfold Rltb. destruct (Rlt_dec 0 z); [lra | reflexivity]. }
  destruct (average_pos (map Rabs (filter (fun x => Rltb x 0) l))) as [q [Hq Hq0]].
  { intros E. apply map_eq_nil in E.
    assert (Hx : In x0 (filter (fun x => Rltb x 0) l)).
    { apply filter_In. split; [exact Hin |].
      unfold Rltb. destruct (Rlt_dec x0 0); [reflexivity | lra]. }
    rewrite E in Hx. destruct Hx. }
  { apply Forall_forall. intros y Hy. apply in_map_iff in Hy as [z [<- Hz]].
    apply filter_In in Hz as [_ Hz]. unfold Rltb in Hz.
    destruct (Rlt_dec z 0); [| discriminate]. apply Rabs_pos_lt. lra. }
  rewrite Hq. cbn [length Nat.ltb Nat.leb].
  unfold seqb at 1, Reqb. destruct (Req_dec_T q 0); [lra |].
  fin_arith. f_equal. unfold Rdiv. rewrite Rmult_0_l, Rplus_0_r, Rinv_1. ring.
Qed.

Lemma momentum_bounds_witness :
  no_overflow_changes [-4; 0; -1] /\ calculateMomentumIndicator [-4; 0; -1] = Fin 0.
Proof.
  assert (Hb : no_overflow_changes [-4; 0; -1]).
  { unfold no_overflow_changes.
    repeat (apply Forall_cons; [apply Rabs_le; lra |]). apply Forall_nil. }
  split; [exact Hb |].
  apply (proj2 (momentum_bounds [-4; 0; -1] Hb)).
  - repeat (apply Forall_cons; [lra |]). apply Forall_nil.
  - exists (-4). split; [left; reflexivity | lra].
Defined.

(** On a non-empty series the volatility score is a number in [[0, 1]]; it is
    1 when the category is ["Alta"] and at most 0.6 when it is ["Baja"]. *)
Theorem volatility_score_category (l : list R) (Hl : l <> []) :
  exists v, score (calculateVolatilityScore l) = Fin v /\ 0 <= v <= 1 /\
    (category (calculateVolatilityScore l) = "Alta"%string -> v = 1) /\
    (category (calculateVolatilityScore l) = "Baja"%string -> v <= 0.6).
Proof.
  destruct (volatility_eq l Hl) as [sd [Hsd ->]]. cbn [score category].
  eexists; split; [reflexivity |].
  change (gtb (Fin sd) (Fin VOL_HIGH)) with (Rltb VOL_HIGH sd).
  change (gtb (Fin sd) (Fin VOL_MEDIUM)) with (Rltb VOL_MEDIUM sd).
  unfold Rltb, VOL_MEDIUM, VOL_HIGH.
  destruct (Rlt_dec 25 sd), (Rlt_dec 15 sd); unfold Rmin;
    destruct (Rle_dec (sd / 25) 1); repeat split; intros; try discriminate; lra.
Qed.

Lemma volatility_score_category_witness :
  [1; 5; -3] <> [] /\
  exists v, score (calculateVolatilityScore [1; 5; -3]) = Fin v /\ 0 <= v <= 1 /\
    (category (calculateVolatilityScore [1; 5; -3]) = "Alta"%string -> v = 1) /\
    (category (calculateVolatilityScore [1; 5; -3]) = "Baja"%string -> v <= 0.6).
Proof.
  split; [discriminate |].
  apply volatility_score_category. discriminate.
Defined.

(** For a quote with a positive market cap, a volume that is not negative and
    at least one percent change that is not [null], none of magnitude above
    1e100, [performBaseAnalysis] gives an investment score and a potential
    return that are numbers in [[1, 10]], and a risk score that is a positive
    number at most 1. *)
Theorem baseAnalysis_scores_in_range (cb : string -> bool) (c : CoinData)
  (Hmc : 0 < market_cap c) (Hvol : 0 <= volume_24h c)
  (Hch : filter_nonnull [percent_change_1h c; percent_change_24h c;
                         percent_change_7d c; percent_change_30d c] <> [])
  (Hb : no_overflow_changes
          (filter_nonnull [percent_change_1h c; percent_change_24h c;
                           percent_change_7d c; percent_change_30d c])) :
  let a := performBaseAnalysis cb c in
  (exists x, investmentScore a = Fin x /\ 1 <= x <= 10) /\
  (exists p, potentialReturn a = Fin p /\ 1 <= p <= 10) /\
  (exists r, risk_score (riskLevel a) = Fin r /\ 0 < r <= 1).
Proof.
  intros a.
  destruct (base_metrics cb c Hmc Hvol Hch)
    as [vh [mom [vs [H1 [H2 [H3 [H4 [H5 [H6 [H7 H8]]]]]]]]]].
  destruct (wellformed_scores _ vh mom vs H1 H2 H3 H4 H5 H6 H7 H8)
    as [Hx [Hp [r [Hr Hrr]]]].
  split; [exact Hx |]. split; [exact Hp |].
  exists r. split; [exact Hr | lra].
Qed.

Lemma baseAnalysis_scores_in_range_witness :
  let c := sample_coin "AAA" 1e9 in
  (0 < market_cap c) /\ (0 <= volume_24h c) /\
  (filter_nonnull [percent_change_1h c; percent_change_24h c;
                   percent_change_7d c; percent_change_30d c] <> []) /\
  no_overflow_changes (filter_nonnull [percent_change_1h c; percent_change_24h c;
                                       percent_change_7d c; percent_change_30d c]) /\
  (exists x, investmentScore (performBaseAnalysis (fun _ => false) c) = Fin x /\ 1 <= x <= 10).
Proof.
  intros c.
  assert (Hb : no_overflow_changes (filter_nonnull [percent_change_1h c; percent_change_24h c;
                                                    percent_change_7d c; percent_change_30d c])).
  { unfold no_overflow_changes; simpl.
    repeat (apply Forall_cons; [apply Rabs_le; lra |]). apply Forall_nil. }
  split; [simpl; lra |]. split; [simpl; lra |]. split; [discriminate |].
  split; [exact Hb |].
  apply (baseAnalysis_scores_in_range (fun _ => false) c); [simpl; lra | simpl; lra | | exact Hb].
  discriminate.
Defined.

(** The adjusted score of a base analysis under a dominance state built by
    [analyzeMarketCycle] is NaN or a number in [[0.8, 12]]: it can exceed the
    10 of the investment score, by the factor 1.2. *)
Theorem adjustedScore_range (cb : string -> bool) (c : CoinData) (d : R) :
  let s := adjustedScore (adjustForBTCDominance (performBaseAnalysis cb c) (marketCycle d)) in
  s = NaN \/ exists y, s = Fin y /\ 0.8 <= y <= 12.
Proof.
  intros s. unfold s. rewrite adjusted_eq.
  set (k := if String.eqb (toUpperCase (cd_symbol c)) "BTC"
            then btcImpact (impact (marketCycle d)) else altcoinImpact (impact (marketCycle d))).
  assert (Hk : 0.8 <= k <= 1.2).
  { unfold k. pose proof (marketCycle_impact_values d) as Hv. cbv zeta in Hv.
    destruct (String.eqb _ _);
      destruct Hv as [[Hb Ha] | [[Hb Ha] | [Hb Ha]]]; rewrite ?Hb, ?Ha; lra. }
  destruct (investmentScore_range cb c) as [Hn | [x [Hx Hr]]].
  - left. rewrite Hn. reflexivity.
  - right. rewrite Hx, mul_fin. eexists; split; [reflexivity |]. nra.
Qed.

(** A quote whose four percent changes are all [null] is always interpreted
    as the lowest tier, ["Oportunidad de Alto Riesgo"], whatever the
    dominance: its adjusted score is NaN, and NaN is not [>=] any threshold. *)
Theorem interpret_all_null (cb : string -> bool) (c : CoinData) (d : R)
  (H1 : percent_change_1h c = None) (H24 : percent_change_24h c = None)
  (H7 : percent_change_7d c = None) (H30 : percent_change_30d c = None) :
  interpretInvestmentScore
    (adjustedScore (adjustForBTCDominance (performBaseAnalysis cb c) (marketCycle d))) =
  "Oportunidad de Alto Riesgo - Se recomienda extrema precaucion"%string.
Proof. rewrite adjusted_eq, investmentScore_all_null by assumption. reflexivity. Qed.

Lemma interpret_all_null_witness :
  percent_change_1h (null_coin "NUL" 1e9) = None /\
  interpretInvestmentScore
    (adjustedScore (adjustForBTCDominance
       (performBaseAnalysis (fun _ => false) (null_coin "NUL" 1e9)) (marketCycle 65))) =
  "Oportunidad de Alto Riesgo - Se recomienda extrema precaucion"%string.
Proof.
  split; [reflexivity |].
  apply interpret_all_null; reflexivity.
Defined.

End AnalyzerProofs.

(** ** Ranking of [scanTopOpportunities] *)

Module RankingProofs.

Import Dominance Analyzer Scanner Fixtures JSSort SortProofs MetricProofs AnalyzerProofs.

Lemma analyzeToken_inv (w : World) (sym : string) (s0 : St) (a : AdjustedAnalysis) :
  fst (analyzeToken w sym s0) = inr a ->
  exists data cd d,
    quotes w (toUpperCase sym) = Some data /\ data (toUpperCase sym) = Some cd /\
    a = adjustForBTCDominance (performBaseAnalysis (coinbaseTokens w) cd) (marketCycle d).
Proof.
  cbv [analyzeToken analyzeMarketCycle getCurrentDominance rethrow_with bind
       attempt ret throw].
  destruct (dominance_feed w (dom_fetches s0)) as [d |],
    (quotes w (toUpperCase sym)) as [data |] eqn:Eq; simpl; try discriminate.
  destruct (data (toUpperCase sym)) as [cd |] eqn:Ed; simpl; intros H; [| discriminate].
  injection H as <-. exists data, cd, d. auto.
Qed.

Lemma world_of_quote (coins : list CoinData) (feed : nat -> option R) (k : string)
  (data : string -> option CoinData) (cd : CoinData) :
  quotes (world_of coins feed) k = Some data -> data k = Some cd -> In cd coins.
Proof.
  intros E1 E2. unfold world_of in E1. cbn [quotes] in E1. injection E1 as <-.
  apply find_some in E2 as [Hin _]. exact Hin.
Qed.

(** Every analysis the loop keeps was returned by [analyzeToken]. *)
Lemma scan_loop_kept (w : World) (coins : list CoinData) :
  forall acc s, exists kept s',
    scan_loop w coins acc s = (inr (acc ++ kept), s') /\
    Forall (fun a => exists sym s0, fst (analyzeToken w sym s0) = inr a) kept.
Proof.
  induction coins as [| c rest IH]; intros acc s.
  - exists [], s. rewrite app_nil_r. split; [reflexivity | constructor].
  - cbn [scan_loop]. unfold bind at 1, attempt.
    destruct (analyzeToken w (cd_symbol c) s) as [[e | a] s1] eqn:E.
    + unfold bind, log_error.
      destruct (IH acc {| dom_fetches := dom_fetches s1;
                          log_file := log_file s1 ++ [(cd_symbol c, e)] |})
        as [kept [s' [E' F]]].
      exists kept, s'. split; [exact E' | exact F].
    + destruct (IH (acc ++ [a]) s1) as [kept [s' [E' F]]].
      exists (a :: kept), s'. rewrite <- app_assoc in E'. split; [exact E' |].
      constructor; [| exact F]. exists (cd_symbol c), s. rewrite E. reflexivity.
Qed.

(** When every score is a number, [js_sort] (the comparator
    [b.adjustedScore - a.adjustedScore]) returns a permutation of its input
    sorted by decreasing adjusted score, and entries with equal scores keep
    their input order. *)
Theorem js_sort_sorted_stable (l : list AdjustedAnalysis)
  (Hf : Forall (fun a => exists r, adjustedScore a = Fin r) l) :
  Permutation (js_sort l) l /\ sorted_desc (js_sort l) /\
  forall v, filter (fun a => seqb (adjustedScore a) (Fin v)) (js_sort l) =
            filter (fun a => seqb (adjustedScore a) (Fin v)) l.
Proof.
  rewrite js_sort_is_sort_by. split; [apply sort_by_perm |]. split.
  - apply sorted_desc_iff, sort_by_sorted, Hf.
  - intros v. apply sort_by_filter, Hf.
Qed.

Lemma js_sort_sorted_stable_witness :
  Forall (fun a => exists r, adjustedScore a = Fin r) [scored "A" 5; scored "B" 7; scored "C" 5] /\
  sorted_desc (js_sort [scored "A" 5; scored "B" 7; scored "C" 5]).
Proof.
  assert (H : Forall (fun a => exists r, adjustedScore a = Fin r)
                [scored "A" 5; scored "B" 7; scored "C" 5])
    by (repeat constructor; eexists; reflexivity).
  split; [exact H |].
  apply (js_sort_sorted_stable _ H).
Defined.

(** When every quote the service returns has a positive market cap, a volume
    that is not negative and some percent change that is not [null], none of
    magnitude above 1e100, the scan returns at most 10 analyses sorted by decreasing adjusted score. *)
Theorem scan_sorted_when_quotes_complete (w : World) (s : St) (coins : list CoinData)
  (H : listings w = Some coins)
  (Hq : forall k data cd, quotes w k = Some data -> data k = Some cd ->
        0 < market_cap cd /\ 0 <= volume_24h cd /\
        filter_nonnull [percent_change_1h cd; percent_change_24h cd;
                        percent_change_7d cd; percent_change_30d cd] <> [] /\
        no_overflow_changes
          (filter_nonnull [percent_change_1h cd; percent_change_24h cd;
                           percent_change_7d cd; percent_change_30d cd])) :
  exists out s',
    scanTopOpportunities w s = (inr out, s') /\ (length out <= 10)%nat /\ sorted_desc out.
Proof.
  destruct (scan_loop_kept w coins [] s) as [kept [s' [E F]]]. simpl in E.
  exists (firstn 10 (js_sort kept)), s'.
  split; [unfold scanTopOpportunities, rethrow_with; rewrite H; unfold bind; rewrite E;
          reflexivity |].
  split; [apply firstn_le_length |].
  apply sorted_desc_iff, sorted_by_firstn. rewrite js_sort_is_sort_by.
  apply sort_by_sorted.
  rewrite Forall_forall in F |- *. intros a Ha.
  destruct (F a Ha) as [sym [s0 Ea]].
  destruct (analyzeToken_inv w sym s0 a Ea) as [data [cd [d [Eq [Ed ->]]]]].
  destruct (Hq _ _ _ Eq Ed) as [Hmc [Hvol [Hch _]]].
  destruct (base_investment_fin (coinbaseTokens w) cd Hmc Hvol Hch) as [x [Hx _]].
  rewrite adjusted_eq, Hx, mul_fin. eexists; reflexivity.
Qed.

Lemma scan_sorted_when_quotes_complete_witness :
  exists out s',
    scanTopOpportunities
      (world_of [sample_coin "AAA" 1e9; sample_coin "BBB" 2e9] (fun _ => Some 50)) st0 =
    (inr out, s') /\ (length out <= 10)%nat /\ sorted_desc out.
Proof.
  apply (scan_sorted_when_quotes_complete _ st0
           [sample_coin "AAA" 1e9; sample_coin "BBB" 2e9]); [reflexivity |].
  intros k data cd E1 E2.
  pose proof (world_of_quote _ _ k data cd E1 E2) as Hin.
  destruct Hin as [<- | [<- | []]]; simpl;
    (split; [lra | split; [lra | split; [discriminate |]]]);
    unfold no_overflow_changes;
    repeat (apply Forall_cons; [apply Rabs_le; lra |]); apply Forall_nil.
Defined.

End RankingProofs.

(** ** Consistency of the dominance state *)

Module CycleProofs.

Import Dominance DominanceProofs.

(** The state built by [analyzeMarketCycle] is consistent: it carries one
    recommendation; the phase is [btc_dominance] exactly when the BTC impact
    is 1.2, [altcoin_season] exactly when it is 0.8, and [transition] or
    [accumulation] exactly when it is 1.0; the recommendation has confidence
    ["Alta"] exactly when the phase strength is ["high"]. *)
Theorem marketCycle_consistent (d : R) :
  let ds := marketCycle d in
  length (recommendations ds) = 1%nat /\
  (name (phase ds) = btc_dominance <-> btcImpact (impact ds) = 1.2) /\
  (name (phase ds) = altcoin_season <-> btcImpact (impact ds) = 0.8) /\
  ((name (phase ds) = transition \/ name (phase ds) = accumulation) <->
   btcImpact (impact ds) = 1.0) /\
  (map confidence (recommendations ds) = ["Alta"%string] <->
   strength (phase ds) = "high"%string).
Proof.
  simpl. unfold generateRecommendations, determineCyclePhase, calculateBTCImpact.
  cases_dominance; simpl; intuition (try discriminate; try lra).
Qed.

End CycleProofs.

(** ** [AdvancedCryptoScanner] *)

Module BasicScannerProofs.

Import Analyzer JSSort SortProofs ScoreProofs BasicScanner.

Lemma nullable_fin (o : option R) : exists r, nullable o = Fin r.
Proof. destruct o as [r |]; eexists; reflexivity. Qed.

Lemma normalize_fin (lo hi x : R) (H : lo <= hi) :
  exists y, normalizeValue (Fin x) lo hi = Fin y /\ lo <= y <= hi.
Proof.
  unfold normalizeValue. rewrite min_fin, max_fin. eexists; split; [reflexivity |].
  unfold Rmax, Rmin. destruct (Rle_dec x hi), (Rle_dec lo _); lra.
Qed.

Lemma normalize_pinf (lo hi : R) (H : lo <= hi) : normalizeValue PInf lo hi = Fin hi.
Proof.
  unfold normalizeValue. change (JSNum.min PInf (Fin hi)) with (Fin hi).
  rewrite max_fin. f_equal. apply Rmax_right. exact H.
Qed.

Lemma normalize_ninf (lo hi : R) : normalizeValue NInf lo hi = Fin lo.
Proof. reflexivity. Qed.

Lemma div_zero_neg (x : R) : x < 0 -> (Fin x / Fin 0)%js = NInf.
Proof.
  intros Hx. unfold JSNum.div, Reqb, inf_of_sign, Rltb.
  destruct (Req_dec_T 0 0); [| congruence].
  destruct (Req_dec_T x 0); [lra |].
  destruct (Rlt_dec 0 x); [lra | reflexivity].
Qed.

Lemma mul_ninf_pos (x : R) : 0 < x -> (NInf * Fin x)%js = NInf.
Proof.
  intros Hx. unfold JSNum.mul, mul_inf, Reqb, Rltb.
  destruct (Req_dec_T x 0); [lra |].
  destruct (Rlt_dec 0 x); [reflexivity | lra].
Qed.

(** The volume factor [normalizeValue(volume / marketCap * 10, 0.1, 5)]. *)
Lemma volume_factor (mc vol : R) :
  (mc <> 0 \/ vol <> 0 ->
   exists v, normalizeValue (Fin vol / Fin mc * 10)%js 0.1 5 = Fin v /\ 0.1 <= v <= 5) /\
  (mc = 0 -> vol = 0 -> normalizeValue (Fin vol / Fin mc * 10)%js 0.1 5 = NaN).
Proof.
  split.
  - intros Hnz. destruct (Req_dec mc 0) as [-> | Hmc].
    + destruct (Rtotal_order vol 0) as [Hv | [Hv | Hv]]; [| lra |].
      * rewrite div_zero_neg, mul_ninf_pos, normalize_ninf by lra.
        eexists; split; [reflexivity | lra].
      * rewrite div_zero_pos, mul_pinf_pos, normalize_pinf by lra.
        eexists; split; [reflexivity | lra].
    + rewrite div_fin, mul_fin by exact Hmc. apply normalize_fin. lra.
  - intros -> ->. rewrite div_zero_zero. reflexivity.
Qed.

(** The potential return for a coin whose market cap or volume is not 0. *)
Lemma potential_range_nonzero (coin : CoinData) :
  market_cap coin <> 0 \/ volume_24h coin <> 0 ->
  exists p, BasicScanner.calculatePotentialReturn coin = Fin p /\ 1 <= p <= 10.
Proof.
  intros Hnz. unfold BasicScanner.calculatePotentialReturn. cbv zeta.
  destruct (proj1 (volume_factor (market_cap coin) (volume_24h coin)) Hnz) as [v [Hv Hv01]].
  rewrite Hv.
  destruct (nullable_fin (percent_change_7d coin)) as [r Hr]. rewrite Hr.
  assert (Hm : 1 <= Rmax (market_cap coin) 1) by apply Rmax_r.
  rewrite max_fin, div_fin by lra.
  rewrite log10_fin by (apply Rdiv_pos_pos; lra).
  fin_arith. apply normalize_fin. lra.
Qed.

(** [normalizeValue(value, min, max)] with [min <= max] is NaN exactly for
    a NaN value; every other value, the infinities included, is brought into
    [[min, max]], +Infinity to [max] and -Infinity to [min]. *)
Theorem normalizeValue_clamps (lo hi : R) (H : lo <= hi) (v : num) :
  (v = NaN -> normalizeValue v lo hi = NaN) /\
  (v <> NaN -> exists y, normalizeValue v lo hi = Fin y /\ lo <= y <= hi) /\
  normalizeValue PInf lo hi = Fin hi /\ normalizeValue NInf lo hi = Fin lo.
Proof.
  split; [intros ->; reflexivity |].
  split; [| split; [apply normalize_pinf, H | apply normalize_ninf]].
  intros Hv. destruct v as [x | | |].
  - apply normalize_fin, H.
  - rewrite normalize_pinf by exact H. eexists; split; [reflexivity | lra].
  - rewrite normalize_ninf. eexists; split; [reflexivity | lra].
  - congruence.
Qed.

Lemma normalizeValue_clamps_witness :
  0.1 <= 5 /\ normalizeValue PInf 0.1 5 = Fin 5.
Proof.
  split; [lra |].
  apply (normalizeValue_clamps 0.1 5 ltac:(lra) PInf).
Defined.

(** [calculatePotentialReturn] of the scanner guards its log10 with
    [Math.max(marketCap, 1)]: it returns a number in [[1, 10]] for every coin,
    a zero or negative market cap included, except when market cap and
    volume are both 0, where [0 / 0] makes it NaN. *)
Theorem basic_potentialReturn_range (coin : CoinData) :
  (market_cap coin <> 0 \/ volume_24h coin <> 0 ->
   exists p, BasicScanner.calculatePotentialReturn coin = Fin p /\ 1 <= p <= 10) /\
  (market_cap coin = 0 -> volume_24h coin = 0 ->
   BasicScanner.calculatePotentialReturn coin = NaN).
Proof.
  split; [apply potential_range_nonzero |].
  intros Hmc Hvol. unfold BasicScanner.calculatePotentialReturn. cbv zeta.
  rewrite (proj2 (volume_factor (market_cap coin) (volume_24h coin)) Hmc Hvol).
  destruct (nullable_fin (percent_change_7d coin)) as [r Hr]. rewrite Hr.
  rewrite Hmc, max_fin, div_fin by (pose proof (Rmax_r 0 1); lra).
  rewrite log10_fin by (apply Rdiv_pos_pos; [lra | pose proof (Rmax_r 0 1); lra]).
  fin_arith. reflexivity.
Qed.

Lemma ltb_fin_false (x y : R) : y <= x -> ltb (Fin x) (Fin y) = false.
Proof. intros H. unfold ltb, Rltb. destruct (Rlt_dec x y); [lra | reflexivity]. Qed.

Lemma ltb_fin_true (x y : R) : x < y -> ltb (Fin x) (Fin y) = true.
Proof. intros H. unfold ltb, Rltb. destruct (Rlt_dec x y); [reflexivity | lra]. Qed.

Lemma gtb_fin_false (x y : R) : x <= y -> gtb (Fin x) (Fin y) = false.
Proof. intros H. unfold gtb. apply ltb_fin_false, H. Qed.

Lemma gtb_fin_true (x y : R) : y < x -> gtb (Fin x) (Fin y) = true.
Proof. intros H. unfold gtb. apply ltb_fin_true, H. Qed.

Lemma ltb_nan_l (b : num) : ltb NaN b = false.
Proof. reflexivity. Qed.

Lemma Rltb_false (x y : R) : y <= x -> Rltb x y = false.
Proof. intros H. unfold Rltb. destruct (Rlt_dec x y); [lra | reflexivity]. Qed.

Lemma Rltb_true (x y : R) : x < y -> Rltb x y = true.
Proof. intros H. unfold Rltb. destruct (Rlt_dec x y); [reflexivity | lra]. Qed.

(** Enumerate the three partial risks that are left open and compare the
    average with the two thresholds. *)
Ltac risk_finish :=
  repeat match goal with
         | |- context [if Rltb (market_cap ?c) ?b then _ else _] =>
             destruct (Rltb (market_cap c) b)
         | |- context [if ltb ?a ?b then _ else _] => destruct (ltb a b)
         | |- context [if gtb ?a ?b then _ else _] => destruct (gtb a b)
         end;
  cbv iota; unfold Rltb;
  repeat match goal with |- context [Rlt_dec ?a ?b] => destruct (Rlt_dec a b) end;
  try discriminate; try reflexivity; lra.

Lemma passes_filters_spec (coin : CoinData) :
  passes_filters coin = true ->
  minMarketCap <= market_cap coin /\ minVolume <= volume_24h coin /\
  minVolumeRatio <= volume_24h coin / market_cap coin.
Proof.
  unfold passes_filters. intros H.
  apply andb_prop in H as [H H3]. apply andb_prop in H as [H1 H2].
  unfold Rleb in H1, H2.
  destruct (Rle_dec minMarketCap (market_cap coin)) as [Hm |]; [| discriminate].
  destruct (Rle_dec minVolume (volume_24h coin)) as [Hv |]; [| discriminate].
  assert (0 < market_cap coin) by (unfold minMarketCap in Hm; lra).
  rewrite div_fin in H3 by lra. apply geb_fin in H3. auto.
Qed.

Lemma basic_score_fin (coin : CoinData) :
  0 < market_cap coin -> exists r, calculateScore coin = Fin r.
Proof.
  intros H. unfold calculateScore. cbv zeta.
  destruct (nullable_fin (percent_change_24h coin)) as [a Ha].
  destruct (nullable_fin (percent_change_7d coin)) as [b Hb].
  rewrite Ha, Hb, (div_fin (volume_24h coin)) by lra. fin_arith. eexists; reflexivity.
Qed.

(** [calculateRisk] answers ["Alto"] only when none of its three partial
    risks is at its lowest level: a market cap of at least 100M, a volume of
    at least 20% of a positive market cap, a 24h change of at most 10% in
    absolute value (a [null] change counts as 0), or a market cap and volume
    both 0 (the ratio [0 / 0] is NaN and NaN is not below any threshold) each
    rule it out; a market cap below 10M, a ratio below 0.1 and a 24h change
    above 20% in absolute value give ["Alto"]. *)
Theorem basic_calculateRisk_levels (coin : CoinData) :
  (100000000 <= market_cap coin -> calculateRisk coin <> "Alto"%string) /\
  (0 < market_cap coin -> 0.2 * market_cap coin <= volume_24h coin ->
   calculateRisk coin <> "Alto"%string) /\
  (market_cap coin = 0 -> volume_24h coin = 0 -> calculateRisk coin <> "Alto"%string) /\
  ((forall ch, percent_change_24h coin = Some ch -> Rabs ch <= 10) ->
   calculateRisk coin <> "Alto"%string) /\
  (0 < market_cap coin < 10000000 -> volume_24h coin < 0.1 * market_cap coin ->
   (exists ch, percent_change_24h coin = Some ch /\ 20 < Rabs ch) ->
   calculateRisk coin = "Alto"%string).
Proof.
  unfold calculateRisk. cbv zeta. split; [| split; [| split; [| split]]].
  - intros H.
    rewrite (Rltb_false (market_cap coin) 10000000), (Rltb_false (market_cap coin) 100000000)
      by lra.
    risk_finish.
  - intros H0 H. assert (0.2 <= volume_24h coin / market_cap coin).
    { apply (Rmult_le_reg_r (market_cap coin)); [lra |].
      unfold Rdiv. rewrite Rmult_assoc, Rinv_l; lra. }
    rewrite div_fin, !ltb_fin_false by lra. risk_finish.
  - intros Hm Hv. rewrite Hm, Hv, div_zero_zero, !ltb_nan_l.
    rewrite (Rltb_true 0 10000000) by lra. risk_finish.
  - intros H. destruct (percent_change_24h coin) as [ch |] eqn:E.
    + specialize (H ch eq_refl). cbn [nullable js_abs].
      rewrite !gtb_fin_false by lra. risk_finish.
    + cbn [nullable js_abs]. rewrite Rabs_R0, !gtb_fin_false by lra. risk_finish.
  - intros Hm Hv [ch [E Hch]].
    assert (volume_24h coin / market_cap coin < 0.1).
    { apply (Rmult_lt_reg_r (market_cap coin)); [lra |].
      unfold Rdiv. rewrite Rmult_assoc, Rinv_l; lra. }
    rewrite E. cbn [nullable js_abs].
    rewrite (Rltb_true (market_cap coin) 10000000), div_fin, ltb_fin_true, gtb_fin_true
      by lra.
    risk_finish.
Qed.

(** [scanOpportunities] on a valid response logs nothing and returns the
    coins that pass its three filters, sorted by decreasing score with equal
    scores in listing order; every returned coin has a market cap of at least
    1M, a volume of at least 100K, a numeric volume ratio of at least 0.05 and
    a potential return in [[1, 10]]. *)
Theorem scanOpportunities_ranked (coins : list CoinData) :
  exists out,
    scanOpportunities (Some (Some coins)) = (inr out, []) /\
    Permutation out (map to_opportunity (filter passes_filters coins)) /\
    sorted_by o_score out /\
    (forall v, filter (fun o => seqb (o_score o) (Fin v)) out =
               filter (fun o => seqb (o_score o) (Fin v))
                 (map to_opportunity (filter passes_filters coins))) /\
    Forall (fun o => minMarketCap <= o_marketCap o /\ minVolume <= o_volume24h o /\
                     (exists r, o_volumeRatio o = Fin r /\ minVolumeRatio <= r) /\
                     (exists p, o_potentialReturn o = Fin p /\ 1 <= p <= 10)) out.
Proof.
  set (l := map to_opportunity (filter passes_filters coins)).
  assert (Hl : forall o, In o l ->
                 exists coin, o = to_opportunity coin /\ passes_filters coin = true).
  { intros o Ho. apply in_map_iff in Ho as [coin [<- Hc]].
    apply filter_In in Hc as [_ Hc]. eauto. }
  assert (Hf : Forall (fun o => exists r, o_score o = Fin r) l).
  { apply Forall_forall. intros o Ho. destruct (Hl o Ho) as [coin [-> Hp]].
    apply passes_filters_spec in Hp as [Hm _]. unfold minMarketCap in Hm.
    apply basic_score_fin. lra. }
  exists (sort_by o_score l). split; [reflexivity |].
  split; [apply sort_by_perm |]. split; [apply sort_by_sorted, Hf |].
  split; [intros v; apply sort_by_filter, Hf |].
  apply Forall_forall. intros o Ho.
  assert (Ho' : In o l) by (eapply Permutation_in; [apply sort_by_perm | exact Ho]).
  destruct (Hl o Ho') as [coin [-> Hp]].
  apply passes_filters_spec in Hp as [Hm [Hv Hr]].
  assert (0 < market_cap coin) by (unfold minMarketCap in Hm; lra).
  cbn [o_marketCap o_volume24h o_volumeRatio o_potentialReturn to_opportunity].
  split; [exact Hm |]. split; [exact Hv |]. split.
  - rewrite div_fin by lra. eexists; split; [reflexivity | exact Hr].
  - apply potential_range_nonzero. left. lra.
Qed.

End BasicScannerProofs.
